(** * UPLO5 feed generation: product validation, retry, worker pool, window

    A shallow embedding of the TypeScript of the UPLO5 repository that the
    feed-generation scheduler is made of:

    - [validateProductForGeneration], [RorkAIClient.generateVirtualTryOn] and
      [RorkAIClient.retryWithBackoff];
    - [FeedLoadingService.processQueue] and [FeedLoadingService.processJob];
    - the calls [FeedProvider] makes on the service ([addJobs] over a window
      of positions, [getWorkerStats]).

    Asynchronous code is modelled by explicit state passing: a job that has
    been started and has not settled yet sits in a list of in-flight jobs, and
    its completion is a separate step of the service.  External calls (the
    catalog, the image download, the generation endpoint) are answered by an
    environment record, and every run returns the trace of the calls it made. *)

From Stdlib Require Import QArith Qround.
From stdpp Require Import gmap strings list fin_maps.

#[local] Set Warnings "-register-all".
Local Open Scope Z_scope.

(** ** JavaScript values and completions *)

Module JS.

(** The values a [product: any] can hold once it has come out of
    [response.json()].  Numbers are kept as integers: only their truthiness
    matters below. *)
Inductive value : Type :=
| Undefined
| Null
| Bool (b : bool)
| Num (n : Z)
| Str (s : string)
| Arr (items : list value)
| Obj (fields : list (string * value)).

(** A call either returns or throws. *)
Inductive completion (A : Type) : Type :=
| Return (a : A)
| Throw (message : string).
Arguments Return {A} a.
Arguments Throw {A} message.

(** [!v] is [negb (truthy v)]. *)
Definition truthy (v : value) : bool :=
  match v with
  | Undefined | Null => false
  | Bool b => b
  | Num n => negb (n =? 0)
  | Str s => negb (String.eqb s "")
  | Arr _ | Obj _ => true
  end.

Fixpoint assoc (k : string) (fields : list (string * value)) : value :=
  match fields with
  | [] => Undefined
  | (k', v) :: rest => if String.eqb k k' then v else assoc k rest
  end.

(** [v.k]: reading a property of [null] or [undefined] throws a TypeError;
    primitives and arrays have no data property of the names used here. *)
Definition get (v : value) (k : string) : completion value :=
  match v with
  | Undefined | Null => Throw "TypeError"
  | Obj fields => Return (assoc k fields)
  | _ => Return Undefined
  end.

(** [Array.isArray(v)] *)
Definition isArray (v : value) : bool :=
  match v with Arr _ => true | _ => false end.

(** The elements of an array value ([v.length] is their number, [v[0]] the
    first of them or [undefined]). *)
Definition elements (v : value) : list value :=
  match v with Arr items => items | _ => [] end.

(** [v.startsWith(p)]: a method of strings only; on any other value the
    property is not a function and the call throws. *)
Definition startsWith (v : value) (p : string) : completion bool :=
  match v with
  | Str s => Return (String.prefix p s)
  | _ => Throw "TypeError"
  end.

End JS.

(** ** Product validation *)

Module ProductValidator.
Import JS.

(** [function validateProductForGeneration(product: any): boolean] *)
Definition validateProductForGeneration (product : value) : completion bool :=
  if negb (truthy product) then Return false
  else
    match get product "image_urls" with
    | Throw e => Throw e
    | Return image_urls =>
        if negb (isArray image_urls) then Return false
        else if (length (elements image_urls) =? 0)%nat then Return false
        else
          let imageUrl := hd Undefined (elements image_urls) in
          if negb (truthy imageUrl) then Return false
          else
            match startsWith imageUrl "http" with
            | Throw e => Throw e
            | Return starts => if negb starts then Return false else Return true
            end
    end.

(** The acceptance condition in words: the product is not null, its
    [image_urls] is an array, the array is not empty, and its first element
    is a non-empty string that starts with [http]. *)
Definition acceptable (product : value) : Prop :=
  product ≠ Null ∧
  ∃ items, get product "image_urls" = Return (Arr items) ∧
    items ≠ [] ∧
    ∃ url, hd Undefined items = Str url ∧ url ≠ "" ∧
           String.prefix "http" url = true.

End ProductValidator.

(** ** The outside world of one job *)

Module External.
Import JS.

(** What a job does to the outside, in the order it does it. *)
Inductive event : Type :=
| FetchProduct                 (* this.fetchProduct() *)
| FetchDifferentProduct        (* this.fetchDifferentProduct() *)
| FetchImage (url : value)     (* fetch(url) in fetchProductImage *)
| Generate (call : nat)        (* fetch(API_URL, POST), the call-th of the job *)
| Sleep (ms : Z).              (* setTimeout(r, ms) *)

(** The answers the outside gives to one job.  [generation n] is the outcome
    of the n-th POST of the job (counted from 0): the [mimeType] and
    [base64Data] of the response, or an error ([!response.ok], a network
    failure, a timeout). *)
Record environment : Type := {
  catalog : completion value;
  otherProduct : completion value;
  productImage : value → completion string;
  generation : nat → completion (string * string)
}.

Definition generations (trace : list event) : list nat :=
  omap (λ ev, match ev with Generate n => Some n | _ => None end) trace.

Definition sleeps (trace : list event) : list Z :=
  omap (λ ev, match ev with Sleep ms => Some ms | _ => None end) trace.

End External.

(** ** lib/RorkAIClient.ts *)

Module RorkAIClient.
Import JS External ProductValidator.

Definition MAX_RETRIES : nat := 3.

(** [retryWithBackoff(fn, retries = this.MAX_RETRIES)].  [fn] is called again
    at every retry; [call] counts the calls made so far, so that [fn call] is
    the outcome of the next one. *)
Fixpoint retryWithBackoff {T : Type} (fn : nat → completion T)
    (call : nat) (retries : nat) : list event * completion T :=
  match fn call with
  | Return v => ([Generate call], Return v)
  | Throw error =>
      match retries with
      | O => ([Generate call], Throw error)
      | S retries' =>
          let '(trace, result) := retryWithBackoff fn (S call) retries' in
          (Generate call :: Sleep (1000 * (4 - Z.of_nat retries)) :: trace,
           result)
      end
  end.

(** The closure passed to [retryWithBackoff]: POST, check [response.ok],
    build the data URL from the JSON answer. *)
Definition post (env : environment) (call : nat) : completion string :=
  match generation env call with
  | Return (mimeType, base64Data) =>
      Return ("data:" +:+ mimeType +:+ ";base64," +:+ base64Data)
  | Throw error => Throw error
  end.

(** [params.product.image_urls[0]] *)
Definition firstImageUrl (product : value) : value :=
  match get product "image_urls" with
  | Return image_urls => hd Undefined (elements image_urls)
  | Throw _ => Undefined
  end.

(** [generateVirtualTryOn({ userImageBase64, product })] *)
Definition generateVirtualTryOn (env : environment) (product : value)
    : list event * completion string :=
  match validateProductForGeneration product with
  | Throw error => ([], Throw error)
  | Return false => ([], Throw "Product validation failed")
  | Return true =>
      let url := firstImageUrl product in
      match productImage env url with
      | Throw error => ([FetchImage url], Throw error)
      | Return productImageBase64 =>
          let '(trace, result) := retryWithBackoff (post env) 0 MAX_RETRIES in
          (FetchImage url :: trace, result)
      end
  end.

(** A schedule of delays grows exponentially when consecutive delays keep a
    constant ratio greater than one: for consecutive [a], [b], [c],
    [a < b] and [b / a = c / b]. *)
Definition exponential (delays : list Z) : Prop :=
  (∀ i a b, delays !! i = Some a → delays !! S i = Some b → a < b) ∧
  (∀ i a b c, delays !! i = Some a → delays !! S i = Some b →
              delays !! S (S i) = Some c → b * b = a * c).

End RorkAIClient.

(** ** lib/FeedLoadingService.ts: the worker pool *)

Module FeedLoadingService.
Import JS External.

Definition MAX_WORKERS : Z := 30.
Definition BUFFER_TARGET : Z := 30.

(** A job as [processJob] uses it: [job.id] and [job.position]. *)
Record Job : Type := { id : string; position : Z }.

(** The fields of the service, and the promises of [processJob] that have
    been started by [processQueue] and have not settled yet. *)
Record Service : Type := {
  activeWorkers : Z;
  jobQueue : list Job;
  imageCache : gmap Z value;
  inFlight : list Job
}.

Definition initial : Service :=
  {| activeWorkers := 0; jobQueue := []; imageCache := ∅; inFlight := [] |}.

(** [this.jobQueue.shift()] *)
Definition shift (queue : list Job) : option Job * list Job :=
  match queue with
  | [] => (None, [])
  | job :: rest => (Some job, rest)
  end.

(** The object [processJob] stores in the cache. *)
Definition cacheEntry (job : Job) (generatedImage : string) (product : value)
    : value :=
  Obj [("id", Str (id job)); ("imageUrl", Str generatedImage);
       ("product", product); ("position", Num (position job))].

(** [processJob(job, userImageBase64)], run to the end: the calls it made,
    the cache it leaves, and whether its promise is fulfilled or rejected. *)
Definition processJob (env : environment) (job : Job) (cache : gmap Z value)
    : list event * gmap Z value * completion unit :=
  let '(trace, outcome) :=
    match catalog env with
    | Throw error => ([FetchProduct], Throw error)
    | Return product =>
        let '(trace, result) :=
          RorkAIClient.generateVirtualTryOn env product in
        (FetchProduct :: trace,
         match result with
         | Return generatedImage => Return (generatedImage, product)
         | Throw error => Throw error
         end)
    end in
  match outcome with
  | Return (generatedImage, product) =>
      (trace,
       <[position job := cacheEntry job generatedImage product]> cache,
       Return ())
  | Throw _ =>
      (* catch: try a different product instead of a text-only fallback *)
      match otherProduct env with
      | Return differentProduct =>
          (trace ++ [FetchDifferentProduct], cache, Return ())
      | Throw error => (trace ++ [FetchDifferentProduct], cache, Throw error)
      end
  end.

(** The loop of [processQueue]: [started] collects, in order, the jobs whose
    [processJob] has been called. *)
Fixpoint processQueue_loop (active : Z) (started queue : list Job)
    : Z * list Job * list Job :=
  match queue with
  | [] => (active, started, [])
  | job :: rest =>
      if active <? MAX_WORKERS
      then processQueue_loop (active + 1) (started ++ [job]) rest
      else (active, started, queue)
  end.

(** The number of jobs one call of [processQueue] starts: the free workers
    or the queued jobs, whichever are fewer. *)
Definition batch (active : Z) (queue : list Job) : nat :=
  Nat.min (Z.to_nat (MAX_WORKERS - active)) (length queue).

(** The jobs one call of [processQueue] takes off the queue. *)
Definition dequeued (s : Service) : list Job :=
  (processQueue_loop (activeWorkers s) [] (jobQueue s)).1.2.

(** [processQueue(userImageBase64)] *)
Definition processQueue (s : Service) : Service :=
  let '(active, started, queue) :=
    processQueue_loop (activeWorkers s) (inFlight s) (jobQueue s) in
  {| activeWorkers := active; jobQueue := queue;
     imageCache := imageCache s; inFlight := started |}.

(** The [i]-th in-flight job runs to its end in environment [env]; its
    [.finally] callback then gives the worker back. *)
Definition settle (i : nat) (env : environment) (s : Service) : Service :=
  match inFlight s !! i with
  | None => s
  | Some job =>
      {| activeWorkers := activeWorkers s - 1;
         jobQueue := jobQueue s;
         imageCache := (processJob env job (imageCache s)).1.2;
         inFlight := delete i (inFlight s) |}
  end.

(** The queue is filled by [addJobs], whose body is not among the sources;
    the pool is studied for every list of jobs it may push. *)
Definition enqueue (jobs : list Job) (s : Service) : Service :=
  {| activeWorkers := activeWorkers s; jobQueue := jobQueue s ++ jobs;
     imageCache := imageCache s; inFlight := inFlight s |}.

Inductive step : Service → Service → Prop :=
| step_enqueue jobs s : step s (enqueue jobs s)
| step_processQueue s : step s (processQueue s)
| step_settle i env s : is_Some (inFlight s !! i) → step s (settle i env s).

Definition reachable (s : Service) : Prop := rtc step initial s.

(** The steps in which no job is pushed for a position that already has a
    queued or in-flight job. *)
Inductive step_distinct : Service → Service → Prop :=
| distinct_enqueue jobs s :
    NoDup (position <$> (inFlight s ++ jobQueue s ++ jobs)) →
    step_distinct s (enqueue jobs s)
| distinct_processQueue s : step_distinct s (processQueue s)
| distinct_settle i env s :
    is_Some (inFlight s !! i) → step_distinct s (settle i env s).

(** No position is being computed by two jobs at once. *)
Definition single_flight (s : Service) : Prop :=
  NoDup (position <$> inFlight s).

(** The order the spec gives to queued jobs: ascending distance from the
    cursor, then ascending position. *)
Definition before (cursor : Z) (a b : Job) : Prop :=
  Z.abs (position a - cursor) < Z.abs (position b - cursor) ∨
  (Z.abs (position a - cursor) = Z.abs (position b - cursor) ∧
   position a ≤ position b).

Definition highest_priority (cursor : Z) (job : Job) (queue : list Job)
    : Prop :=
  ∀ other, other ∈ queue → before cursor job other.

(** Jobs processed one after the other, each in its own environment.  A job
    reads nothing that another job writes (the cache is only written to), so
    the calls of a job are the same in every interleaving. *)
Fixpoint run_jobs (cache : gmap Z value) (jobs : list (Job * environment))
    : gmap Z value * list (list event) :=
  match jobs with
  | [] => (cache, [])
  | (job, env) :: rest =>
      let '(trace, cache', _) := processJob env job cache in
      let '(final, traces) := run_jobs cache' rest in
      (final, trace :: traces)
  end.

End FeedLoadingService.

(** ** The scheduler façade: window requests and statistics

    [FeedProvider] calls [addJobs], [getEntries] and [getWorkerStats] on the
    service, whose bodies are not among the sources.  This module gives them
    the behaviour the specification describes for [EnsureWindow] and
    [GetStats], over the specification's own data model. *)

Module Scheduler.

(** [FeedEntry.state] *)
Inductive EntryState : Type :=
| Pending
| Claimed
| Ready (artifactRef productRef : string)
| Failed (retryable : bool) (reason : string).

(** [Job = {position, attempt}] *)
Record Job : Type := { position : Z; attempt : nat }.

(** [Window = {cursor, size}] *)
Record Window : Type := { cursor : Z; size : nat }.

Record State : Type := {
  PositionCache : gmap Z EntryState;
  queue : list Job;
  window : Window
}.

Definition empty : State :=
  {| PositionCache := ∅; queue := [];
     window := {| cursor := 0; size := 0 |} |}.

(** The positions [[cursor, cursor + size)], built as [FeedProvider] builds
    them: [Array.from({ length: size }, (_, i) => cursor + i)]. *)
Definition positions (cursor : Z) (size : nat) : list Z :=
  (λ i, cursor + Z.of_nat i) <$> seq 0 size.

(** Modelled from the spec: which positions get a job.  A position gets one
    when it is absent from the cache or present only as [Failed]
    (retryable); [Pending], [Claimed], [Ready] and terminal [Failed] entries
    get none. *)
Definition needsJob (entry : option EntryState) : bool :=
  match entry with
  | None => true
  | Some (Failed true _) => true
  | Some _ => false
  end.

(** Modelled from the spec: the request for one position.  The job is
    created at [attempt = 0] and put at the end of the queue.  The entry of
    the position is created as [Pending] in the same atomic step ("FeedEntry
    is created on first EnsureWindow request that includes its position");
    a [Failed] (retryable) entry starts its life cycle anew in the same way,
    since the check that prevents a duplicate enqueue is made against the
    cache. *)
Definition request (st : State) (p : Z) : State :=
  if needsJob (PositionCache st !! p)
  then {| PositionCache := <[p := Pending]> (PositionCache st);
          queue := queue st ++ [{| position := p; attempt := 0 |}];
          window := window st |}
  else st.

(** Modelled from the spec: [addJobs(positions)], the body of which is not
    among the sources ([FeedProvider] calls it with the window's
    positions). *)
Definition addJobs (ps : list Z) (st : State) : State :=
  foldl request st ps.

(** The positions [FeedProvider] passes to [addJobs] when [currentIndex]
    changes: the next 30 positions. *)
Definition nextPositions (currentIndex : Z) : list Z :=
  positions currentIndex 30.

(** Modelled from the spec: [EnsureWindow(cursor, size)] requests every
    position of the window and remembers the window for [GetStats]. *)
Definition EnsureWindow (c : Z) (n : nat) (st : State) : State :=
  let st' := addJobs (positions c n) st in
  {| PositionCache := PositionCache st'; queue := queue st';
     window := {| cursor := c; size := n |} |}.

Definition isReady (entry : option EntryState) : bool :=
  match entry with Some (Ready _ _) => true | _ => false end.

(** The number of [Ready] positions of the most recent window. *)
Definition readyCountInWindow (st : State) : nat :=
  length (List.filter (λ p, isReady (PositionCache st !! p))
            (positions (cursor (window st)) (size (window st)))).

(** The number of queued jobs for position [p]. *)
Definition queuedFor (p : Z) (st : State) : nat :=
  length (List.filter (λ job, position job =? p) (queue st)).

Record Stats : Type := {
  activeWorkers : Z;
  maxWorkers : Z;
  bufferHealth : Q
}.

(** Modelled from the spec: [GetStats()] ([getWorkerStats] in
    [FeedProvider]), the body of which is not among the sources.  The worker
    counts are those of the pool; [bufferHealth] is
    [readyCountInWindow / windowSize], and 0 for an empty window. *)
Definition GetStats (pool : FeedLoadingService.Service) (st : State) : Stats :=
  {| activeWorkers := FeedLoadingService.activeWorkers pool;
     maxWorkers := FeedLoadingService.MAX_WORKERS;
     bufferHealth :=
       if (size (window st) =? 0)%nat then 0%Q
       else (inject_Z (Z.of_nat (readyCountInWindow st))
             / inject_Z (Z.of_nat (size (window st))))%Q |}.

End Scheduler.

(** ** app/(main)/feed.tsx: the statistics overlay *)

Module Feed.

(** [x.toFixed(0)] for [x >= 0]: the nearest integer, the larger one of two
    that are equally near. *)
Definition toFixed0 (x : Q) : Z := Qfloor (x + (1 # 2)).

(** The number in [Buffer: {workerStats.bufferHealth.toFixed(0)}%]. *)
Definition bufferPercent (stats : Scheduler.Stats) : Z :=
  toFixed0 (Scheduler.bufferHealth stats).

End Feed.

(** ** Concrete inputs used by the examples below *)

Module Scenarios.
Import JS External FeedLoadingService.

Definition jeans : value :=
  Obj [("id", Num 1); ("name", Str "Slim Jeans"); ("brand_name", Str "ASOS");
       ("image_urls", Arr [Str "https://cdn.example/jeans.jpg"]);
       ("base_price", Num 4999)].

(** A catalog row that has lost its images. *)
Definition imageless : value :=
  Obj [("id", Num 2); ("name", Str "Hoodie"); ("brand_name", Str "Nike");
       ("image_urls", Arr [])].

Definition job (p : Z) : Job := {| id := "job"; position := p |}.

(** Jobs for the positions [[from, from + count)]. *)
Definition jobs (from : Z) (count : nat) : list Job :=
  (λ i, job (from + Z.of_nat i)) <$> seq 0 count.

(** Forty jobs are pushed and the queue is processed once. *)
Definition saturated : Service :=
  processQueue (enqueue (jobs 0 40) initial).

(** A job for position 7 is in flight when a second job for position 7 is
    pushed and the queue is processed again. *)
Definition twice_seven : Service :=
  processQueue
    (enqueue [{| id := "b"; position := 7 |}]
       (processQueue (enqueue [{| id := "a"; position := 7 |}] initial))).

(** Twenty-nine workers are busy; the reader was at position 9 and has
    scrolled back to position 3, so that the job for 9 was pushed before the
    job for 3. *)
Definition scrolled_back : Service :=
  enqueue [job 9; job 3] (processQueue (enqueue (jobs 100 29) initial)).

(** A window of thirty positions from 100 on, the first twenty-four of
    which are Ready. *)
Definition warm : Scheduler.State :=
  {| Scheduler.PositionCache :=
       list_to_map ((λ p, (p, Scheduler.Ready "artifact" "product"))
                      <$> Scheduler.positions 100 24);
     Scheduler.queue := [];
     Scheduler.window := {| Scheduler.cursor := 100; Scheduler.size := 30 |} |}.

(** Position 1 is being computed, position 2 is done, position 3 has failed
    for good and position 4 has failed in a way that may be retried. *)
Definition mixed : Scheduler.State :=
  {| Scheduler.PositionCache :=
       list_to_map [(1, Scheduler.Claimed);
                    (2, Scheduler.Ready "artifact" "product");
                    (3, Scheduler.Failed false "retries exhausted");
                    (4, Scheduler.Failed true "circuit open")];
     Scheduler.queue := [];
     Scheduler.window := {| Scheduler.cursor := 0; Scheduler.size := 0 |} |}.

(** A feed of three items: a picture, an item still loading, a picture. *)
Definition short_feed : list value :=
  [cacheEntry (job 0) "data:image/jpeg;base64,AAAA" jeans;
   Obj [("id", Str "job"); ("position", Num 1); ("isLoading", Bool true)];
   cacheEntry (job 2) "data:image/jpeg;base64,BBBB" jeans].

(** The generation endpoint answers 500 to every call. *)
Definition failing : environment :=
  {| catalog := Return jeans;
     otherProduct := Return jeans;
     productImage := λ _, Return "cHJvZHVjdA==";
     generation := λ _, Throw "API error: 500" |}.

(** The generation endpoint fails twice and then answers. *)
Definition third_time_lucky : environment :=
  {| catalog := Return jeans;
     otherProduct := Return jeans;
     productImage := λ _, Return "cHJvZHVjdA==";
     generation := λ call,
       if (call <? 2)%nat then Throw "API error: 503"
       else Return ("image/jpeg", "dHJ5b24=") |}.

(** The catalog hands out the product without images. *)
Definition no_images : environment :=
  {| catalog := Return imageless;
     otherProduct := Return jeans;
     productImage := λ _, Return "cHJvZHVjdA==";
     generation := λ _, Return ("image/jpeg", "dHJ5b24=") |}.

End Scenarios.

(** ** Data URLs: [blobToBase64] and [convertToBase64]

    [RorkAIClient.blobToBase64] and the [convertToBase64] of the onboarding
    screen both read a blob with [FileReader.readAsDataURL] and resolve with
    [result.split(',')[1]]. *)

Module DataUrl.
Import JS.

(** [s.split(sep)] for a separator of one character: the pieces between the
    separators, at least one piece. *)
Fixpoint split (sep : Ascii.ascii) (s : string) : list string :=
  match s with
  | EmptyString => [EmptyString]
  | String c rest =>
      if Ascii.eqb c sep then EmptyString :: split sep rest
      else match split sep rest with
           | piece :: pieces => String c piece :: pieces
           | [] => [String c EmptyString]
           end
  end.

(** [s.includes(c)] *)
Fixpoint includes (c : Ascii.ascii) (s : string) : bool :=
  match s with
  | EmptyString => false
  | String c' rest => Ascii.eqb c' c || includes c rest
  end.

(** The comma, character 44. *)
Definition comma : Ascii.ascii := Ascii.ascii_of_nat 44.

(** The value the promise of [blobToBase64] is resolved with, given
    [reader.result]: [result.split(',')[1]]. *)
Definition blobToBase64 (result : string) : value :=
  match split comma result !! 1%nat with
  | Some piece => Str piece
  | None => Undefined
  end.

End DataUrl.

(** ** The error handling pattern: [generateWithFallback] *)

Module Fallback.
Import JS ProductValidator.

Inductive call : Type :=
| Generate (product : value)       (* rorkClient.generate({ userBase64, product }) *)
| FetchDifferentProduct.           (* fetchDifferentProduct() *)

(** [generate n product] is the outcome of the n-th call of
    [rorkClient.generate] (counted from 0), made with [product]. *)
Record environment : Type := {
  generate : nat → value → completion string;
  different : completion value
}.

(** [generateWithFallback(userBase64, product)] *)
Definition generateWithFallback (env : environment) (product : value)
    : list call * completion string :=
  let '(trace, attempt) :=
    match validateProductForGeneration product with
    | Throw error => ([], Throw error)
    | Return false => ([], Throw "Invalid product")
    | Return true => ([Generate product], generate env 0 product)
    end in
  match attempt with
  | Return image => (trace, Return image)
  | Throw _ =>
      match different env with
      | Throw error => (trace ++ [FetchDifferentProduct], Throw error)
      | Return nextProduct =>
          match validateProductForGeneration nextProduct with
          | Throw error => (trace ++ [FetchDifferentProduct], Throw error)
          | Return true =>
              (trace ++ [FetchDifferentProduct; Generate nextProduct],
               generate env (length trace) nextProduct)
          | Return false =>
              (trace ++ [FetchDifferentProduct],
               Throw "No valid products available")
          end
      end
  end.

Definition generated (trace : list call) : list value :=
  omap (λ c, match c with Generate p => Some p | _ => None end) trace.

Definition fetched (trace : list call) : nat :=
  length (List.filter
            (λ c, match c with FetchDifferentProduct => true | _ => false end)
            trace).

End Fallback.

(** ** The scraper's [validate_product] (Python) *)

Module Scraper.
Import JS.

(** Python's truth value of a JSON value: [None], [False], [0], [""], [[]]
    and [{}] are false. *)
Definition truth (v : value) : bool :=
  match v with
  | Undefined | Null => false
  | Bool b => b
  | Num n => negb (n =? 0)
  | Str s => negb (String.eqb s "")
  | Arr items => negb (length items =? 0)%nat
  | Obj fields => negb (length fields =? 0)%nat
  end.

(** [d.get(key)]: a method of dicts; a missing key gives [None]. *)
Definition dict_get (d : value) (key : string) : completion value :=
  match d with
  | Obj fields =>
      Return (match assoc key fields with Undefined => Null | v => v end)
  | _ => Throw "AttributeError"
  end.

(** [v.startswith(p)]: a method of [str] only. *)
Definition startswith (v : value) (p : string) : completion bool :=
  match v with
  | Str s => Return (String.prefix p s)
  | _ => Throw "AttributeError"
  end.

(** [def validate_product(product_data)] *)
Definition validate_product (product_data : value) : completion bool :=
  match dict_get product_data "image_urls" with
  | Throw e => Throw e
  | Return image_urls =>
      if negb (truth image_urls) then Return false
      else if negb (isArray image_urls) then Return false
      else if (length (elements image_urls) =? 0)%nat then Return false
      else
        match startswith (hd Null (elements image_urls)) "http" with
        | Throw e => Throw e
        | Return starts => if negb starts then Return false else Return true
        end
  end.

End Scraper.

(** ** app/(main)/feed.tsx: items and preloading *)

Module FeedScreen.
Import JS.

(** The child that [{guard && (<element/>)}] leaves in the tree: the
    element when [guard] is truthy, and otherwise the falsy value of [guard]
    itself (React draws nothing for [false], [null] and [undefined], but a
    number such as [0] stays a child). *)
Inductive guarded (A : Type) : Type :=
| Shown (element : A)
| Leftover (guard : value).
Arguments Shown {A} element.
Arguments Leftover {A} guard.

Definition and_then {A : Type} (guard : value) (element : A) : guarded A :=
  if truthy guard then Shown element else Leftover guard.

Record productInfo : Type := {
  productName : value;
  productBrand : value;
  (** the price line, showing [item.product.base_price] (in cents) *)
  productPrice : guarded value
}.

Inductive view : Type :=
| Spinner                      (* "Generating your look..." *)
| ErrorText (message : value)
| Picture (uri : value) (info : guarded productInfo)
| Blank.

(** [v.k] where [v] is known not to be [null] or [undefined]. *)
Definition prop (v : value) (k : string) : value :=
  match get v k with Return x => x | Throw _ => Undefined end.

(** [renderFeedItem({ item })] *)
Definition renderFeedItem (item : value) : completion view :=
  match get item "isLoading" with
  | Throw e => Throw e
  | Return isLoading =>
      if truthy isLoading then Return Spinner
      else if truthy (prop item "error")
      then Return (ErrorText (prop item "error"))
      else if truthy (prop item "imageUrl")
      then
        let product := prop item "product" in
        Return (Picture (prop item "imageUrl")
                  (and_then product
                     {| productName := prop product "name";
                        productBrand := prop product "brand_name";
                        productPrice :=
                          and_then (prop product "base_price")
                                   (prop product "base_price") |}))
      else Return Blank
  end.

(** [item?.imageUrl] *)
Definition imageUrlOf (item : option value) : value :=
  match item with
  | None | Some Undefined | Some Null => Undefined
  | Some item => prop item "imageUrl"
  end.

(** The preload effect: the arguments of the [Image.prefetch] calls it
    makes, in order, for the five positions after [currentIndex]. *)
Definition preload (currentIndex : nat) (feed : list value) : list value :=
  omap (λ pos,
          let imageUrl := imageUrlOf (feed !! pos) in
          if truthy imageUrl then Some imageUrl else None)
       [currentIndex + 1; currentIndex + 2; currentIndex + 3;
        currentIndex + 4; currentIndex + 5]%nat.

End FeedScreen.

(** ** The [products] table: [check_has_images] *)

Module CatalogSchema.

(** PostgreSQL's [array_length(a, 1)] on a one-dimensional array: the number
    of elements, and NULL (not 0) for an empty array. *)
Definition array_length (a : list string) : option Z :=
  match a with
  | [] => None
  | _ => Some (Z.of_nat (length a))
  end.

(** [x > y] in SQL: NULL when an operand is NULL. *)
Definition gt (x : option Z) (y : Z) : option bool :=
  match x with
  | None => None
  | Some x => Some (y <? x)
  end.

(** [CHECK (array_length(image_urls, 1) > 0)] *)
Definition check_has_images (image_urls : list string) : option bool :=
  gt (array_length image_urls) 0.

(** A row satisfies a CHECK constraint when the expression is true or
    NULL. *)
Definition satisfied (check : option bool) : bool :=
  match check with
  | Some false => false
  | _ => true
  end.

End CatalogSchema.

(** ** Runs of the worker pool *)

Module PoolRuns.
Import JS External FeedLoadingService.

Inductive action : Type :=
| Push (jobs : list Job)
| Process
| Settle (i : nat) (env : environment).

Definition perform (s : Service) (a : action) : Service :=
  match a with
  | Push jobs => enqueue jobs s
  | Process => processQueue s
  | Settle i env => settle i env s
  end.

Definition run (actions : list action) (s : Service) : Service :=
  foldl perform s actions.

Definition isSettle (a : action) : bool :=
  match a with Settle _ _ => true | _ => false end.

(** The number of calls of [fetchDifferentProduct] in a trace. *)
Definition substitutions (trace : list event) : nat :=
  length (List.filter
            (λ ev, match ev with FetchDifferentProduct => true | _ => false end)
            trace).

(** The number of jobs pushed by a run. *)
Fixpoint pushed (actions : list action) : nat :=
  match actions with
  | [] => 0
  | Push jobs :: rest => length jobs + pushed rest
  | _ :: rest => pushed rest
  end.

(** The number of jobs that have settled in a run from [s]. *)
Fixpoint settled (actions : list action) (s : Service) : nat :=
  match actions with
  | [] => 0
  | a :: rest =>
      (match a with
       | Settle i _ => match inFlight s !! i with Some _ => 1 | None => 0 end
       | _ => 0
       end + settled rest (perform s a))%nat
  end.

(** The jobs pushed by a run, in the order of the pushes. *)
Fixpoint pushedJobs (actions : list action) : list Job :=
  match actions with
  | [] => []
  | Push jobs :: rest => jobs ++ pushedJobs rest
  | _ :: rest => pushedJobs rest
  end.

(** The jobs that have settled in a run from [s], in the order in which they
    settled. *)
Fixpoint settledJobs (actions : list action) (s : Service) : list Job :=
  match actions with
  | [] => []
  | a :: rest =>
      match a with
      | Settle i _ =>
          match inFlight s !! i with Some job => [job] | None => [] end
      | _ => []
      end ++ settledJobs rest (perform s a)
  end.

(** Every entry of the cache is one that [processJob] has written for the
    position it is stored at, with a product that passes validation and a
    data URL as image. *)
Definition well_cached (s : Service) : Prop :=
  ∀ p entry, imageCache s !! p = Some entry →
    ∃ job image product,
      entry = cacheEntry job image product ∧ position job = p ∧
      ProductValidator.validateProductForGeneration product = Return true ∧
      String.prefix "data:" image = true.

End PoolRuns.

(** * Properties *)

(** ** Product validation *)

Module ValidatorFacts.
Import JS ProductValidator.

Lemma truthy_Str (s : string) : truthy (Str s) = true ↔ s ≠ "".
Proof.
  simpl. rewrite negb_true_iff. apply String.eqb_neq.
Qed.

Lemma validate_Obj_first (fields : list (string * value)) (first : value)
    (rest : list value) :
  assoc "image_urls" fields = Arr (first :: rest) →
  validateProductForGeneration (Obj fields) =
    if negb (truthy first) then Return false
    else match startsWith first "http" with
         | Throw e => Throw e
         | Return starts => if negb starts then Return false else Return true
         end.
Proof.
  intros Hurls. unfold validateProductForGeneration. simpl. rewrite Hurls.
  reflexivity.
Qed.

(** A first element that is truthy and not a string has no [startsWith]:
    the call throws instead of returning. *)
Lemma validate_first_not_a_string_throws :
  validateProductForGeneration (Obj [("image_urls", Arr [Num 5])])
    = Throw "TypeError".
Proof. reflexivity. Qed.

(** C10. [validateProductForGeneration] returns [true] exactly for a product
    that is not null, whose [image_urls] is an array, not empty, with a first
    element that is a non-empty string starting with [http].  A product whose
    first image URL does not start with [http] is rejected, whatever the
    later elements of [image_urls] are. *)
Theorem validate_true_iff_first_url_http :
  (∀ product,
     validateProductForGeneration product = Return true ↔ acceptable product)
  ∧
  (∀ fields first rest,
     assoc "image_urls" fields = Arr (Str first :: rest) →
     String.prefix "http" first = false →
     validateProductForGeneration (Obj fields) = Return false).
Proof.
  split.
  - intros product. split.
    + intros Hv.
      destruct product as [| |b|n|s|items|fields]; try discriminate Hv.
      * destruct b; discriminate Hv.
      * unfold validateProductForGeneration in Hv. simpl in Hv.
        destruct (n =? 0); discriminate Hv.
      * unfold validateProductForGeneration in Hv. simpl in Hv.
        destruct (String.eqb s ""); discriminate Hv.
      * destruct (assoc "image_urls" fields) as [| |b|n|s|items|fs] eqn:Hurls;
          try (unfold validateProductForGeneration in Hv; simpl in Hv;
               rewrite Hurls in Hv; discriminate Hv).
        destruct items as [|first rest].
        { unfold validateProductForGeneration in Hv; simpl in Hv.
          rewrite Hurls in Hv. discriminate Hv. }
        rewrite (validate_Obj_first _ _ _ Hurls) in Hv.
        destruct (truthy first) eqn:Htruthy; [|discriminate Hv].
        destruct first as [| |b|n|s|xs|fs]; try discriminate Hv.
        simpl in Hv.
        destruct (String.prefix "http" s) eqn:Hprefix; [|discriminate Hv].
        split; [discriminate|].
        exists (Str s :: rest). simpl. rewrite Hurls.
        split; [reflexivity|]. split; [discriminate|].
        exists s. split; [reflexivity|]. split; [|assumption].
        apply truthy_Str. assumption.
    + intros (Hnull & items & Hget & Hitems & url & Hhd & Hurl & Hprefix).
      destruct product as [| |b|n|s|xs|fields]; try discriminate Hget.
      simpl in Hget. injection Hget as Hurls.
      destruct items as [|first rest]; [congruence|].
      simpl in Hhd. subst first.
      rewrite (validate_Obj_first _ _ _ Hurls).
      apply truthy_Str in Hurl. rewrite Hurl. simpl. rewrite Hprefix.
      reflexivity.
  - intros fields first rest Hurls Hprefix.
    rewrite (validate_Obj_first _ _ _ Hurls).
    destruct (truthy (Str first)); simpl; [|reflexivity].
    rewrite Hprefix. reflexivity.
Qed.

Lemma validate_true_iff_first_url_http_witness :
  validateProductForGeneration
    (Obj [("name", Str "Jeans");
          ("image_urls", Arr [Str "https://cdn.example/1.jpg"])])
    = Return true
  ∧ validateProductForGeneration
      (Obj [("image_urls", Arr [Str "ftp://cdn.example/1.jpg";
                                Str "https://cdn.example/2.jpg"])])
    = Return false.
Proof.
  split.
  - apply (proj1 validate_true_iff_first_url_http).
    split; [discriminate|].
    exists [Str "https://cdn.example/1.jpg"].
    split; [reflexivity|]. split; [discriminate|].
    exists "https://cdn.example/1.jpg".
    split; [reflexivity|]. split; [discriminate|reflexivity].
  - apply (proj2 validate_true_iff_first_url_http _ "ftp://cdn.example/1.jpg"
             [Str "https://cdn.example/2.jpg"]); reflexivity.
Defined.

End ValidatorFacts.

(** ** Retry with backoff *)

Module RetryFacts.
Import JS External RorkAIClient.

Lemma retryWithBackoff_calls {T : Type} (fn : nat → completion T)
    (retries call : nat) :
  (1 ≤ length (generations (retryWithBackoff fn call retries).1)
     ≤ S retries)%nat.
Proof.
  revert call. induction retries as [|r IH]; intros call; simpl.
  - destruct (fn call); simpl; lia.
  - destruct (fn call); simpl; [lia|].
    specialize (IH (S call)).
    destruct (retryWithBackoff fn (S call) r) as [trace result].
    simpl in *. lia.
Qed.

Lemma retryWithBackoff_success_first {T : Type} (fn : nat → completion T)
    (retries call : nat) (v : T) :
  fn call = Return v →
  retryWithBackoff fn call retries = ([Generate call], Return v).
Proof.
  intros Hfn. destruct retries; simpl; rewrite Hfn; reflexivity.
Qed.

Lemma retryWithBackoff_failure {T : Type} (fn : nat → completion T)
    (retries call : nat) (error : string) :
  fn call = Throw error →
  retryWithBackoff fn call (S retries) =
    (Generate call :: Sleep (1000 * (4 - Z.of_nat (S retries)))
       :: (retryWithBackoff fn (S call) retries).1,
     (retryWithBackoff fn (S call) retries).2).
Proof.
  intros Hfn. simpl. rewrite Hfn.
  destruct (retryWithBackoff fn (S call) retries). reflexivity.
Qed.

(** The waits of a call that fails at every attempt: 1000 ms times the
    number of the retry, a linear schedule. *)
Lemma retryWithBackoff_sleeps_linear {T : Type} (error : string)
    (retries call : nat) :
  sleeps (retryWithBackoff (T := T) (λ _, Throw error) call retries).1 =
    (λ r, 1000 * (4 - Z.of_nat r)) <$> rev (seq 1 retries).
Proof.
  revert call. induction retries as [|r IH]; intros call.
  - reflexivity.
  - rewrite (retryWithBackoff_failure _ _ _ error) by reflexivity.
    rewrite seq_S, rev_app_distr. cbn [rev app].
    rewrite fmap_cons, <- (IH (S call)). reflexivity.
Qed.

(** With a generation call that fails at every attempt, whatever the error,
    [retryWithBackoff] makes the first call and [MAX_RETRIES] = 3 retries and
    then gives up with the error; the waits before the three retries are
    1000, 2000 and 3000 ms. *)
Theorem retryWithBackoff_delays_linear (error : string) :
  let run := retryWithBackoff (T := string) (λ _, Throw error) 0 MAX_RETRIES in
  generations run.1 = [0; 1; 2; 3]%nat ∧
  run.2 = Throw error ∧
  sleeps run.1 = [1000; 2000; 3000] ∧
  ¬ exponential (sleeps run.1).
Proof.
  simpl. repeat split.
  intros [_ Hratio].
  specialize (Hratio 0%nat 1000 2000 3000 eq_refl eq_refl eq_refl).
  discriminate Hratio.
Qed.




End RetryFacts.

(** ** One job from start to end *)

Module JobFacts.
Import JS External ProductValidator RorkAIClient FeedLoadingService.

Lemma generateVirtualTryOn_valid (env : environment) (product : value)
    (productImageBase64 : string) :
  validateProductForGeneration product = Return true →
  productImage env (firstImageUrl product) = Return productImageBase64 →
  generateVirtualTryOn env product =
    (FetchImage (firstImageUrl product)
       :: (retryWithBackoff (post env) 0 MAX_RETRIES).1,
     (retryWithBackoff (post env) 0 MAX_RETRIES).2).
Proof.
  intros Hvalid Himage. unfold generateVirtualTryOn.
  rewrite Hvalid, Himage.
  destruct (retryWithBackoff (post env) 0 MAX_RETRIES). reflexivity.
Qed.

(** The calls a job makes do not depend on the cache. *)
Lemma processJob_trace_cache (env : environment) (job : Job)
    (cache cache' : gmap Z value) :
  (processJob env job cache).1.1 = (processJob env job cache').1.1.
Proof.
  unfold processJob.
  destruct (catalog env) as [product|error].
  - destruct (generateVirtualTryOn env product) as [trace [image|err]];
      [reflexivity|].
    destruct (otherProduct env); reflexivity.
  - destruct (otherProduct env); reflexivity.
Qed.

Lemma processJob_generations_valid (env : environment) (job : Job)
    (cache : gmap Z value) (product : value) (productImageBase64 : string) :
  catalog env = Return product →
  validateProductForGeneration product = Return true →
  productImage env (firstImageUrl product) = Return productImageBase64 →
  generations (processJob env job cache).1.1 =
    generations (retryWithBackoff (post env) 0 MAX_RETRIES).1.
Proof.
  intros Hcatalog Hvalid Himage. unfold processJob.
  rewrite Hcatalog, (generateVirtualTryOn_valid _ _ _ Hvalid Himage).
  destruct (retryWithBackoff (post env) 0 MAX_RETRIES) as [trace [image|err]];
    simpl; [reflexivity|].
  destruct (otherProduct env); simpl;
    unfold generations; rewrite omap_app; simpl; rewrite app_nil_r;
    reflexivity.
Qed.

Lemma run_jobs_snoc (cache : gmap Z value) (history : list (Job * environment))
    (job : Job) (env : environment) :
  (run_jobs cache (history ++ [(job, env)])).2 =
    (run_jobs cache history).2
      ++ [(processJob env job (run_jobs cache history).1).1.1].
Proof.
  revert cache. induction history as [|[j e] history IH]; intros cache; simpl.
  - destruct (processJob env job cache) as [[trace cache'] result].
    reflexivity.
  - destruct (processJob e j cache) as [[trace cache'] result].
    specialize (IH cache').
    destruct (run_jobs cache' (history ++ [(job, env)])) as [final traces].
    destruct (run_jobs cache' history) as [final' traces'].
    simpl in *. rewrite IH. reflexivity.
Qed.

(** C3, as stated, fails: there is no circuit breaker on the generation
    path.  Six jobs are run one after the other against an endpoint that
    answers 500 to every call; none of them produces an image, and the sixth
    still calls the endpoint, four times. *)
Lemma sixth_job_after_five_failures_calls_generation :
  let jobs := (λ p, (Scenarios.job p, Scenarios.failing)) <$> [0; 1; 2; 3; 4; 5] in
  let run := run_jobs ∅ jobs in
  run.1 = ∅ ∧
  generations <$> run.2 !! 5%nat = Some [0; 1; 2; 3]%nat ∧
  generations <$> run.2 !! 5%nat ≠ Some [].
Proof.
  vm_compute. repeat split. discriminate.
Qed.

(** C3, amended.  [processJob] consults no circuit breaker: whatever jobs
    ran before and however they ended, a job whose product passes validation
    and whose product image is downloaded calls the generation endpoint, at
    least once and at most [1 + MAX_RETRIES] = 4 times. *)
Theorem generation_called_whatever_the_history
    (cache : gmap Z value) (history : list (Job * environment))
    (job : Job) (env : environment) (product : value)
    (productImageBase64 : string) :
  catalog env = Return product →
  validateProductForGeneration product = Return true →
  productImage env (firstImageUrl product) = Return productImageBase64 →
  ∃ trace,
    last (run_jobs cache (history ++ [(job, env)])).2 = Some trace ∧
    (1 ≤ length (generations trace) ≤ 4)%nat.
Proof.
  intros Hcatalog Hvalid Himage.
  exists (processJob env job (run_jobs cache history).1).1.1.
  split.
  - rewrite run_jobs_snoc. apply last_snoc.
  - rewrite (processJob_generations_valid _ _ _ _ _ Hcatalog Hvalid Himage).
    apply (RetryFacts.retryWithBackoff_calls (post env) MAX_RETRIES 0).
Qed.

Lemma generation_called_whatever_the_history_witness :
  ∃ trace,
    last (run_jobs ∅
            (((λ p, (Scenarios.job p, Scenarios.failing)) <$> [0; 1; 2; 3; 4])
               ++ [(Scenarios.job 5, Scenarios.failing)])).2 = Some trace ∧
    (1 ≤ length (generations trace) ≤ 4)%nat.
Proof.
  apply (generation_called_whatever_the_history ∅ _ (Scenarios.job 5)
           Scenarios.failing Scenarios.jeans "cHJvZHVjdA==");
    reflexivity.
Defined.

(** C8, as stated, fails: nothing records an attempt number.  After two
    failed calls and a successful third one the position is cached, and the
    cached entry has no [attempt] field. *)
Lemma third_attempt_entry_has_no_attempt :
  let run := processJob Scenarios.third_time_lucky (Scenarios.job 7) ∅ in
  ∃ entry,
    run.1.2 !! 7 = Some entry ∧
    get entry "imageUrl" = Return (Str "data:image/jpeg;base64,dHJ5b24=") ∧
    get entry "attempt" = Return Undefined ∧
    get entry "attempt" ≠ Return (Num 3).
Proof.
  eexists. split; [vm_compute; reflexivity|].
  repeat split. discriminate.
Qed.

(** C8, amended.  A job whose generation call fails twice and succeeds at
    the third attempt ends with its position cached: the endpoint has been
    called exactly three times, after waits of 1000 and 2000 ms, and the
    entry holds the generated image and the product (the position is Ready);
    the number of attempts is not recorded in the entry. *)
Theorem third_attempt_success_is_cached
    (env : environment) (job : Job) (cache : gmap Z value) (product : value)
    (productImageBase64 error1 error2 mimeType base64Data : string) :
  catalog env = Return product →
  validateProductForGeneration product = Return true →
  productImage env (firstImageUrl product) = Return productImageBase64 →
  generation env 0 = Throw error1 →
  generation env 1 = Throw error2 →
  generation env 2 = Return (mimeType, base64Data) →
  let run := processJob env job cache in
  let image := "data:" +:+ mimeType +:+ ";base64," +:+ base64Data in
  generations run.1.1 = [0; 1; 2]%nat ∧
  sleeps run.1.1 = [1000; 2000] ∧
  run.2 = Return () ∧
  run.1.2 !! position job = Some (cacheEntry job image product) ∧
  get (cacheEntry job image product) "imageUrl" = Return (Str image) ∧
  truthy (Str image) = true ∧
  get (cacheEntry job image product) "attempt" = Return Undefined.
Proof.
  intros Hcatalog Hvalid Himage H0 H1 H2. simpl.
  unfold processJob.
  rewrite Hcatalog, (generateVirtualTryOn_valid _ _ _ Hvalid Himage).
  assert (Hretry : retryWithBackoff (post env) 0 MAX_RETRIES =
            ([Generate 0; Sleep 1000; Generate 1; Sleep 2000; Generate 2],
             Return ("data:" +:+ mimeType +:+ ";base64," +:+ base64Data))).
  { unfold MAX_RETRIES.
    rewrite (RetryFacts.retryWithBackoff_failure _ _ _ error1)
      by (unfold post; rewrite H0; reflexivity).
    rewrite (RetryFacts.retryWithBackoff_failure _ _ _ error2)
      by (unfold post; rewrite H1; reflexivity).
    rewrite (RetryFacts.retryWithBackoff_success_first _ _ _
               ("data:" +:+ mimeType +:+ ";base64," +:+ base64Data))
      by (unfold post; rewrite H2; reflexivity).
    reflexivity. }
  rewrite Hretry. simpl.
  repeat split. apply lookup_insert_eq.
Qed.

Lemma third_attempt_success_is_cached_witness :
  let run := processJob Scenarios.third_time_lucky (Scenarios.job 7) ∅ in
  generations run.1.1 = [0; 1; 2]%nat ∧
  sleeps run.1.1 = [1000; 2000] ∧
  run.2 = Return ().
Proof.
  pose proof (third_attempt_success_is_cached Scenarios.third_time_lucky
                (Scenarios.job 7) ∅ Scenarios.jeans "cHJvZHVjdA=="
                "API error: 503" "API error: 503" "image/jpeg" "dHJ5b24="
                eq_refl eq_refl eq_refl eq_refl eq_refl eq_refl) as H.
  destruct H as (Hg & Hs & Hr & _). repeat split; assumption.
Defined.

(** C9.  A product whose [image_urls] is empty fails validation before any
    generation call: the job makes no call to the generation endpoint and
    waits for no retry, fetches a different product, and leaves the cache as
    it was; when it settles, the service has changed in nothing but the
    worker it gives back. *)
Theorem empty_image_urls_fetches_different_product
    (env : environment) (job : Job) (fields : list (string * value)) :
  catalog env = Return (Obj fields) →
  assoc "image_urls" fields = Arr [] →
  (∀ cache,
     let run := processJob env job cache in
     run.1.1 = [FetchProduct; FetchDifferentProduct] ∧
     generations run.1.1 = [] ∧ sleeps run.1.1 = [] ∧
     run.1.2 = cache) ∧
  (∀ s i, inFlight s !! i = Some job →
     settle i env s =
       {| activeWorkers := activeWorkers s - 1; jobQueue := jobQueue s;
          imageCache := imageCache s; inFlight := delete i (inFlight s) |}).
Proof.
  intros Hcatalog Hurls.
  assert (Hrun : ∀ cache,
            (processJob env job cache).1 =
              ([FetchProduct; FetchDifferentProduct], cache)).
  { intros cache. unfold processJob, generateVirtualTryOn.
    rewrite Hcatalog. unfold validateProductForGeneration. simpl.
    rewrite Hurls. simpl. destruct (otherProduct env); reflexivity. }
  split.
  - intros cache. simpl. rewrite Hrun. repeat split.
  - intros s i Hjob. unfold settle. rewrite Hjob, Hrun. reflexivity.
Qed.

Lemma empty_image_urls_fetches_different_product_witness :
  (processJob Scenarios.no_images (Scenarios.job 3) ∅).1.1
    = [FetchProduct; FetchDifferentProduct].
Proof.
  apply (proj1 (empty_image_urls_fetches_different_product
                  Scenarios.no_images (Scenarios.job 3) _ eq_refl eq_refl) ∅).
Defined.

End JobFacts.

(** ** The worker pool *)

Module PoolFacts.
Import JS External FeedLoadingService.

Lemma batch_nil (active : Z) : batch active [] = 0%nat.
Proof. unfold batch. apply Nat.min_0_r. Qed.

Lemma batch_busy (active : Z) (queue : list Job) :
  MAX_WORKERS ≤ active → batch active queue = 0%nat.
Proof.
  intros Hbusy. unfold batch.
  replace (Z.to_nat (MAX_WORKERS - active)) with 0%nat by lia.
  reflexivity.
Qed.

Lemma batch_free (active : Z) (job : Job) (rest : list Job) :
  active < MAX_WORKERS →
  batch active (job :: rest) = S (batch (active + 1) rest).
Proof.
  intros Hfree. unfold batch. simpl length.
  replace (Z.to_nat (MAX_WORKERS - active))
    with (S (Z.to_nat (MAX_WORKERS - (active + 1)))) by lia.
  reflexivity.
Qed.

Lemma batch_bound (active : Z) (queue : list Job) :
  active ≤ MAX_WORKERS →
  active + Z.of_nat (batch active queue) ≤ MAX_WORKERS.
Proof. unfold batch. lia. Qed.

(** The loop starts the first [batch] jobs of the queue, in queue order. *)
Lemma processQueue_loop_eq (queue : list Job) (active : Z)
    (started : list Job) :
  processQueue_loop active started queue =
    (active + Z.of_nat (batch active queue),
     started ++ take (batch active queue) queue,
     drop (batch active queue) queue).
Proof.
  revert active started.
  induction queue as [|job rest IH]; intros active started; simpl.
  - rewrite batch_nil. simpl. rewrite Z.add_0_r, app_nil_r. reflexivity.
  - destruct (active <? MAX_WORKERS) eqn:Hfree.
    + apply Z.ltb_lt in Hfree.
      rewrite IH, (batch_free _ _ _ Hfree). simpl.
      rewrite <- app_assoc. simpl.
      do 2 f_equal. lia.
    + apply Z.ltb_ge in Hfree.
      rewrite (batch_busy _ _ Hfree). simpl.
      rewrite Z.add_0_r, app_nil_r. reflexivity.
Qed.

Lemma dequeued_eq (s : Service) :
  dequeued s = take (batch (activeWorkers s) (jobQueue s)) (jobQueue s).
Proof. unfold dequeued. rewrite processQueue_loop_eq. reflexivity. Qed.

Lemma processQueue_eq (s : Service) :
  processQueue s =
    {| activeWorkers :=
         activeWorkers s + Z.of_nat (batch (activeWorkers s) (jobQueue s));
       jobQueue := drop (batch (activeWorkers s) (jobQueue s)) (jobQueue s);
       imageCache := imageCache s;
       inFlight := inFlight s ++ dequeued s |}.
Proof.
  unfold processQueue. rewrite processQueue_loop_eq, dequeued_eq.
  reflexivity.
Qed.

(** The counter counts the in-flight jobs and stays within the capacity. *)
Lemma step_counts_in_flight (s s' : Service) :
  step s s' →
  activeWorkers s = Z.of_nat (length (inFlight s)) ∧
    activeWorkers s ≤ MAX_WORKERS →
  activeWorkers s' = Z.of_nat (length (inFlight s')) ∧
    activeWorkers s' ≤ MAX_WORKERS.
Proof.
  intros Hstep [Hcount Hbound]. destruct Hstep as [jobs s|s|i env s Hi].
  - simpl. split; assumption.
  - rewrite processQueue_eq. simpl. split.
    + rewrite length_app, dequeued_eq, length_take.
      unfold batch. lia.
    + apply batch_bound. assumption.
  - unfold settle. destruct Hi as [job Hjob]. rewrite Hjob. simpl.
    assert (Hlen : (0 < length (inFlight s))%nat).
    { apply lookup_lt_Some in Hjob. lia. }
    rewrite length_delete by eauto. split; lia.
Qed.

Lemma reachable_counts_in_flight (s : Service) :
  reachable s →
  activeWorkers s = Z.of_nat (length (inFlight s)) ∧
    activeWorkers s ≤ MAX_WORKERS.
Proof.
  unfold reachable. revert s.
  apply (rtc_ind_r (λ s, activeWorkers s = Z.of_nat (length (inFlight s)) ∧
                         activeWorkers s ≤ MAX_WORKERS)).
  - simpl. unfold MAX_WORKERS. lia.
  - intros s s' _ Hstep IH. eapply step_counts_in_flight; eassumption.
Qed.

(** C1.  In every state the pool reaches by pushing jobs, processing the
    queue and settling jobs, in any order and for any jobs, the number of
    active workers that [GetStats] reports is the number of jobs in flight
    and lies between 0 and [MAX_WORKERS] = 30. *)
Theorem active_workers_never_exceed_max (pool : Service) :
  reachable pool →
  ∀ st,
    let stats := Scheduler.GetStats pool st in
    Scheduler.activeWorkers stats = Z.of_nat (length (inFlight pool)) ∧
    0 ≤ Scheduler.activeWorkers stats ≤ Scheduler.maxWorkers stats ∧
    Scheduler.maxWorkers stats = 30.
Proof.
  intros Hreach st. simpl.
  destruct (reachable_counts_in_flight pool Hreach) as [Hcount Hbound].
  repeat split; [assumption|lia|assumption].
Qed.

Lemma saturated_reachable : reachable Scenarios.saturated.
Proof.
  unfold reachable, Scenarios.saturated.
  eapply rtc_l; [apply (step_enqueue (Scenarios.jobs 0 40))|].
  apply rtc_once, step_processQueue.
Qed.

Lemma active_workers_never_exceed_max_witness :
  let stats := Scheduler.GetStats Scenarios.saturated Scheduler.empty in
  Scheduler.activeWorkers stats
    = Z.of_nat (length (inFlight Scenarios.saturated)) ∧
  0 ≤ Scheduler.activeWorkers stats ≤ Scheduler.maxWorkers stats ∧
  Scheduler.maxWorkers stats = 30.
Proof.
  apply (active_workers_never_exceed_max Scenarios.saturated
           saturated_reachable Scheduler.empty).
Defined.

(** The positions of the queued and in-flight jobs stay pairwise distinct
    as long as no job is pushed for a position that has one already. *)
Lemma step_distinct_positions (s s' : Service) :
  step_distinct s s' →
  NoDup (position <$> (inFlight s ++ jobQueue s)) →
  NoDup (position <$> (inFlight s' ++ jobQueue s')).
Proof.
  intros Hstep Hdistinct. destruct Hstep as [jobs s Hfresh|s|i env s Hi].
  - simpl. assumption.
  - rewrite processQueue_eq, dequeued_eq. simpl.
    rewrite <- app_assoc, take_drop. assumption.
  - unfold settle. destruct Hi as [job Hjob]. rewrite Hjob. simpl.
    apply (sublist_NoDup _ _ Hdistinct).
    apply fmap_sublist, sublist_app; [apply sublist_delete|reflexivity].
Qed.

(** C2, as stated, fails: [processJob] claims nothing and [processQueue]
    starts every job it takes off the queue.  A job for position 7 is in
    flight; a second job for position 7 is pushed and the queue is processed:
    both jobs are then in flight for position 7. *)
Lemma second_job_for_position_in_flight_is_started :
  reachable Scenarios.twice_seven ∧
  position <$> inFlight Scenarios.twice_seven = [7; 7] ∧
  ¬ single_flight Scenarios.twice_seven.
Proof.
  split; [|split].
  - unfold reachable, Scenarios.twice_seven.
    eapply rtc_l; [apply (step_enqueue [{| id := "a"; position := 7 |}])|].
    eapply rtc_l; [apply step_processQueue|].
    eapply rtc_l; [apply (step_enqueue [{| id := "b"; position := 7 |}])|].
    apply rtc_once, step_processQueue.
  - reflexivity.
  - unfold single_flight. vm_compute.
    intros Hnodup. apply NoDup_cons in Hnodup as [Hnotin _].
    apply Hnotin. left.
Qed.

(** C2, amended.  [processQueue] starts every job it takes off the queue,
    with no claim on the position and no abort.  As long as no job is pushed
    for a position that already has a queued or in-flight job, no position
    has two jobs in flight at once. *)
Theorem single_flight_when_pushed_positions_distinct :
  (∀ s, inFlight (processQueue s) = inFlight s ++ dequeued s) ∧
  (∀ s, rtc step_distinct initial s → single_flight s).
Proof.
  split.
  - intros s. rewrite processQueue_eq. reflexivity.
  - intros s Hrun.
    assert (Hdistinct : NoDup (position <$> (inFlight s ++ jobQueue s))).
    { revert s Hrun.
      apply (rtc_ind_r
               (λ s, NoDup (position <$> (inFlight s ++ jobQueue s)))).
      - simpl. constructor.
      - intros s s' _ Hstep IH. eapply step_distinct_positions; eassumption. }
    unfold single_flight. rewrite fmap_app in Hdistinct.
    apply NoDup_app in Hdistinct as [Hflight _]. assumption.
Qed.

Lemma single_flight_when_pushed_positions_distinct_witness :
  single_flight Scenarios.saturated.
Proof.
  apply (proj2 single_flight_when_pushed_positions_distinct).
  unfold Scenarios.saturated.
  eapply rtc_l; [apply (distinct_enqueue (Scenarios.jobs 0 40))|].
  - apply (bool_decide_unpack _). vm_compute. exact I.
  - apply rtc_once, distinct_processQueue.
Defined.

(** C6, as stated, fails: the queue is first in, first out.  The reader is
    at position 3, one worker is free, and the queue holds the job for
    position 9 before the job for position 3: the job taken off the queue is
    the one for position 9. *)
Lemma head_of_queue_is_dequeued_not_the_nearest :
  reachable Scenarios.scrolled_back ∧
  activeWorkers Scenarios.scrolled_back = 29 ∧
  jobQueue Scenarios.scrolled_back = [Scenarios.job 9; Scenarios.job 3] ∧
  dequeued Scenarios.scrolled_back = [Scenarios.job 9] ∧
  ¬ highest_priority 3 (Scenarios.job 9) (jobQueue Scenarios.scrolled_back).
Proof.
  split; [|repeat split].
  - unfold reachable, Scenarios.scrolled_back.
    eapply rtc_l; [apply (step_enqueue (Scenarios.jobs 100 29))|].
    eapply rtc_l; [apply step_processQueue|].
    apply rtc_once, step_enqueue.
  - intros Hbest.
    specialize (Hbest (Scenarios.job 3)).
    destruct Hbest as [Hcloser|[Hsame _]].
    + change (Scenarios.job 3 ∈ [Scenarios.job 9; Scenarios.job 3]).
      set_solver.
    + vm_compute in Hcloser. discriminate Hcloser.
    + vm_compute in Hsame. discriminate Hsame.
Qed.

(** C6, amended.  [processQueue] takes jobs off the head of [jobQueue], in
    the order in which they were pushed: the jobs it starts are a prefix of
    the queue, the rest stays queued in the same order, and whenever a worker
    is free and the queue is not empty the job dequeued first is the head of
    the queue, whatever its distance from the cursor. *)
Theorem processQueue_dequeues_head_first (s : Service) :
  dequeued s ++ jobQueue (processQueue s) = jobQueue s ∧
  inFlight (processQueue s) = inFlight s ++ dequeued s ∧
  (∀ job rest,
     activeWorkers s < MAX_WORKERS →
     jobQueue s = job :: rest →
     (shift (jobQueue s)).1 = Some job ∧
     ∃ others, dequeued s = job :: others).
Proof.
  rewrite processQueue_eq, dequeued_eq. simpl.
  split; [apply take_drop|]. split; [reflexivity|].
  intros job rest Hfree Hqueue. rewrite Hqueue. split; [reflexivity|].
  rewrite (batch_free _ _ _ Hfree). simpl. eauto.
Qed.

Lemma processQueue_dequeues_head_first_witness :
  (shift (jobQueue Scenarios.scrolled_back)).1 = Some (Scenarios.job 9) ∧
  ∃ others, dequeued Scenarios.scrolled_back = Scenarios.job 9 :: others.
Proof.
  apply (proj2 (proj2 (processQueue_dequeues_head_first
                         Scenarios.scrolled_back))
           (Scenarios.job 9) [Scenarios.job 3]).
  - vm_compute. reflexivity.
  - reflexivity.
Defined.

End PoolFacts.

(** ** Window requests and statistics *)

Module SchedulerFacts.
Import Scheduler.

Lemma request_blocked (st : State) (p : Z) :
  needsJob (PositionCache st !! p) = false → request st p = st.
Proof. intros Hblocked. unfold request. rewrite Hblocked. reflexivity. Qed.

Lemma request_blocks (st : State) (p : Z) :
  needsJob (PositionCache (request st p) !! p) = false.
Proof.
  unfold request. destruct (needsJob (PositionCache st !! p)) eqn:Hneeds.
  - simpl. rewrite lookup_insert_eq. reflexivity.
  - assumption.
Qed.

Lemma request_keeps_blocked (st : State) (p q : Z) :
  needsJob (PositionCache st !! q) = false →
  needsJob (PositionCache (request st p) !! q) = false.
Proof.
  intros Hblocked. unfold request.
  destruct (needsJob (PositionCache st !! p)); [|assumption].
  simpl. destruct (decide (p = q)) as [->|Hne].
  - rewrite lookup_insert_eq. reflexivity.
  - rewrite lookup_insert_ne by assumption. assumption.
Qed.

Lemma request_other (st : State) (p q : Z) :
  p ≠ q → PositionCache (request st p) !! q = PositionCache st !! q.
Proof.
  intros Hne. unfold request.
  destruct (needsJob (PositionCache st !! p)); [|reflexivity].
  simpl. apply lookup_insert_ne. assumption.
Qed.

Lemma request_window (st : State) (p : Z) :
  window (request st p) = window st.
Proof. unfold request. destruct (needsJob _); reflexivity. Qed.

Lemma addJobs_keeps_blocked (ps : list Z) (st : State) (q : Z) :
  needsJob (PositionCache st !! q) = false →
  needsJob (PositionCache (addJobs ps st) !! q) = false.
Proof.
  revert st. induction ps as [|p ps IH]; intros st Hblocked; simpl.
  - assumption.
  - apply IH, request_keeps_blocked. assumption.
Qed.

(** After a request for [ps], none of [ps] needs a job. *)
Lemma addJobs_blocks (ps : list Z) (st : State) (q : Z) :
  q ∈ ps → needsJob (PositionCache (addJobs ps st) !! q) = false.
Proof.
  revert st. induction ps as [|p ps IH]; intros st Hin.
  - inversion Hin.
  - simpl. apply elem_of_cons in Hin as [->|Hin].
    + apply addJobs_keeps_blocked, request_blocks.
    + apply IH. assumption.
Qed.

(** A request for positions that need no job changes nothing. *)
Lemma addJobs_blocked (ps : list Z) (st : State) :
  (∀ q, q ∈ ps → needsJob (PositionCache st !! q) = false) →
  addJobs ps st = st.
Proof.
  revert st. induction ps as [|p ps IH]; intros st Hblocked; simpl.
  - reflexivity.
  - rewrite request_blocked by (apply Hblocked; left).
    apply IH. intros q Hq. apply Hblocked. right. assumption.
Qed.

Lemma addJobs_window (ps : list Z) (st : State) :
  window (addJobs ps st) = window st.
Proof.
  revert st. induction ps as [|p ps IH]; intros st; simpl; [reflexivity|].
  rewrite IH. apply request_window.
Qed.

Lemma queuedFor_request (st : State) (p q : Z) :
  queuedFor q (request st p) =
    (queuedFor q st +
     if needsJob (PositionCache st !! p)
     then if (p =? q)%Z then 1 else 0 else 0)%nat.
Proof.
  unfold request, queuedFor.
  destruct (needsJob (PositionCache st !! p)); simpl.
  - rewrite List.filter_app, length_app. simpl.
    destruct (p =? q); reflexivity.
  - lia.
Qed.

(** The number of jobs a request adds for one position: one when the
    position is requested and needs a job, none otherwise. *)
Lemma queuedFor_addJobs (ps : list Z) (st : State) (q : Z) :
  queuedFor q (addJobs ps st) =
    (queuedFor q st +
     if needsJob (PositionCache st !! q)
     then if bool_decide (q ∈ ps) then 1 else 0 else 0)%nat.
Proof.
  revert st. induction ps as [|p ps IH]; intros st; simpl.
  - destruct (needsJob _); simpl; lia.
  - rewrite IH, queuedFor_request.
    destruct (decide (p = q)) as [->|Hne].
    + rewrite request_blocks, Z.eqb_refl.
      rewrite bool_decide_eq_true_2 by left.
      destruct (needsJob (PositionCache st !! q)); lia.
    + rewrite (request_other _ _ _ Hne).
      replace (p =? q) with false by (symmetry; apply Z.eqb_neq; assumption).
      rewrite (bool_decide_ext (q ∈ p :: ps) (q ∈ ps))
        by (rewrite elem_of_cons; intuition congruence).
      destruct (needsJob (PositionCache st !! p)); lia.
Qed.

(** C4.  [EnsureWindow(c, s)] called a second time right after the first
    changes nothing: the cache, the queue and the window are those the first
    call left; the same holds of [addJobs] over the next 30 positions, as
    [FeedProvider] calls it.  A call adds at most one job for a position, and
    none for a position that is already Ready, Claimed, or Pending with its
    job enqueued. *)
Theorem EnsureWindow_idempotent (c : Z) (n : nat) (st : State) :
  EnsureWindow c n (EnsureWindow c n st) = EnsureWindow c n st ∧
  addJobs (nextPositions c) (addJobs (nextPositions c) st)
    = addJobs (nextPositions c) st ∧
  (∀ p, queuedFor p (EnsureWindow c n st) ≤ queuedFor p st + 1)%nat ∧
  (∀ p,
     (PositionCache st !! p = Some Pending ∨
      PositionCache st !! p = Some Claimed ∨
      ∃ artifactRef productRef,
        PositionCache st !! p = Some (Ready artifactRef productRef)) →
     queuedFor p (EnsureWindow c n st) = queuedFor p st).
Proof.
  split; [|split; [|split]].
  - unfold EnsureWindow at 1. rewrite addJobs_blocked.
    + reflexivity.
    + intros q Hq. simpl. apply addJobs_blocks. assumption.
  - apply addJobs_blocked. intros q Hq. apply addJobs_blocks. assumption.
  - intros p. unfold EnsureWindow.
    change (queuedFor p (addJobs (positions c n) st) ≤ queuedFor p st + 1)%nat.
    rewrite queuedFor_addJobs.
    destruct (needsJob _); [destruct (bool_decide _)|]; lia.
  - intros p Hentry. unfold EnsureWindow.
    change (queuedFor p (addJobs (positions c n) st) = queuedFor p st).
    rewrite queuedFor_addJobs.
    destruct Hentry as [->|[->|(a & b & ->)]]; simpl; lia.
Qed.

Lemma EnsureWindow_idempotent_witness :
  queuedFor 1 (EnsureWindow 0 5 Scenarios.mixed) = 0%nat ∧
  queuedFor 2 (EnsureWindow 0 5 Scenarios.mixed) = 0%nat.
Proof.
  split.
  - apply (proj2 (proj2 (proj2
             (EnsureWindow_idempotent 0 5 Scenarios.mixed))) 1).
    right. left. reflexivity.
  - apply (proj2 (proj2 (proj2
             (EnsureWindow_idempotent 0 5 Scenarios.mixed))) 2).
    right. right. exists "artifact", "product". reflexivity.
Defined.

Lemma readyCountInWindow_le (st : State) :
  (readyCountInWindow st ≤ size (window st))%nat.
Proof.
  unfold readyCountInWindow.
  etransitivity; [apply List.filter_length_le|].
  unfold positions. rewrite length_fmap, length_seq. reflexivity.
Qed.

(** C5.  [GetStats] reports as [bufferHealth] the ratio of the number of
    Ready positions of the most recent window to the size of the window, a
    number between 0 and 1, and 0 for a window of size 0; with 24 Ready
    positions in a window of 30 it is 0.8. *)
Theorem bufferHealth_is_ready_ratio
    (pool : FeedLoadingService.Service) (st : State) :
  let health := bufferHealth (GetStats pool st) in
  (0 <= health)%Q ∧ (health <= 1)%Q ∧
  (size (window st) = 0%nat → health = 0%Q) ∧
  (size (window st) ≠ 0%nat →
     health = (inject_Z (Z.of_nat (readyCountInWindow st))
               / inject_Z (Z.of_nat (size (window st))))%Q) ∧
  (size (window st) = 30%nat → readyCountInWindow st = 24%nat →
     (health == 0.8)%Q).
Proof.
  simpl. pose proof (readyCountInWindow_le st) as Hle.
  destruct (size (window st) =? 0)%nat eqn:Hsize.
  - apply Nat.eqb_eq in Hsize.
    split; [|split; [|split; [|split]]].
    + apply Qle_refl.
    + discriminate.
    + reflexivity.
    + intros Hne. contradiction.
    + intros H30. rewrite H30 in Hsize. discriminate Hsize.
  - apply Nat.eqb_neq in Hsize.
    assert (Hpos : (0 < inject_Z (Z.of_nat (size (window st))))%Q).
    { change 0%Q with (inject_Z 0). rewrite <- Zlt_Qlt. lia. }
    split; [|split; [|split; [|split]]].
    + apply Qle_shift_div_l; [assumption|].
      rewrite Qmult_0_l. change 0%Q with (inject_Z 0).
      rewrite <- Zle_Qle. lia.
    + apply Qle_shift_div_r; [assumption|].
      rewrite Qmult_1_l. rewrite <- Zle_Qle. lia.
    + intros Hzero. contradiction.
    + reflexivity.
    + intros H30 H24. rewrite H30, H24. reflexivity.
Qed.

Lemma bufferHealth_is_ready_ratio_witness :
  (bufferHealth (GetStats FeedLoadingService.initial Scenarios.warm) == 0.8)%Q.
Proof.
  apply (proj2 (proj2 (proj2 (proj2
           (bufferHealth_is_ready_ratio FeedLoadingService.initial
              Scenarios.warm)))));
    vm_compute; reflexivity.
Defined.

(** The overlay prints the ratio itself before the percent sign: a buffer
    health of 0.8 is shown as 1. *)
Lemma overlay_of_warm_window :
  Feed.bufferPercent (GetStats FeedLoadingService.initial Scenarios.warm) = 1.
Proof. vm_compute. reflexivity. Qed.

End SchedulerFacts.

(** * Further properties of the code *)

(** ** [retryWithBackoff] for any [fn] *)

Module RetryExtras.
Import JS External RorkAIClient.

(** X1.  The first successful call ends the retries: its value is returned, no
    call is made after it, and the waits before it follow the linear
    schedule. *)
Theorem retryWithBackoff_first_success {T : Type} (fn : nat → completion T)
    (k retries call : nat) (v : T) :
  (k ≤ retries)%nat →
  (∀ j, (j < k)%nat → ∃ error, fn (call + j)%nat = Throw error) →
  fn (call + k)%nat = Return v →
  let run := retryWithBackoff fn call retries in
  run.2 = Return v ∧
  generations run.1 = seq call (S k) ∧
  sleeps run.1 =
    (λ j, 1000 * (4 - Z.of_nat (retries - j))) <$> seq 0 k.
Proof.
  revert retries call. induction k as [|k IH]; intros retries call Hk Hfail Hok.
  - rewrite Nat.add_0_r in Hok.
    rewrite (RetryFacts.retryWithBackoff_success_first _ _ _ _ Hok).
    repeat split.
  - destruct retries as [|r]; [lia|].
    destruct (Hfail 0%nat ltac:(lia)) as [error Herror].
    rewrite Nat.add_0_r in Herror.
    rewrite (RetryFacts.retryWithBackoff_failure _ _ _ _ Herror).
    destruct (IH r (S call)) as (Hres & Hgen & Hsleep).
    + lia.
    + intros j Hj. destruct (Hfail (S j) ltac:(lia)) as [e He].
      exists e. rewrite <- He. f_equal. lia.
    + rewrite <- Hok. f_equal. lia.
    + simpl in *. repeat split.
      * assumption.
      * unfold generations in *. simpl. f_equal. assumption.
      * unfold sleeps in *. simpl. f_equal.
        rewrite Hsleep, <- fmap_S_seq, <- list_fmap_compose.
        reflexivity.
Qed.

Lemma retryWithBackoff_first_success_witness :
  (retryWithBackoff (post Scenarios.third_time_lucky) 0 MAX_RETRIES).2
    = Return "data:image/jpeg;base64,dHJ5b24=".
Proof.
  apply (retryWithBackoff_first_success (post Scenarios.third_time_lucky)
           2 MAX_RETRIES 0 "data:image/jpeg;base64,dHJ5b24=").
  - unfold MAX_RETRIES. lia.
  - intros j Hj. exists "API error: 503".
    destruct j as [|[|j]]; [reflexivity|reflexivity|lia].
  - reflexivity.
Defined.

(** X2.  When every call fails, [fn] has been called [retries + 1] times and the
    error that is rethrown is the one of the last call. *)
Theorem retryWithBackoff_exhausted {T : Type} (fn : nat → completion T)
    (retries call : nat) :
  (∀ j, (j ≤ retries)%nat → ∃ error, fn (call + j)%nat = Throw error) →
  let run := retryWithBackoff fn call retries in
  run.2 = fn (call + retries)%nat ∧
  generations run.1 = seq call (S retries) ∧
  length (sleeps run.1) = retries.
Proof.
  revert call. induction retries as [|r IH]; intros call Hfail.
  - destruct (Hfail 0%nat ltac:(lia)) as [error Herror].
    simpl. rewrite Nat.add_0_r in *. rewrite Herror. repeat split.
  - destruct (Hfail 0%nat ltac:(lia)) as [error Herror].
    rewrite Nat.add_0_r in Herror.
    rewrite (RetryFacts.retryWithBackoff_failure _ _ _ _ Herror).
    destruct (IH (S call)) as (Hres & Hgen & Hsleep).
    { intros j Hj. destruct (Hfail (S j) ltac:(lia)) as [e He].
      exists e. rewrite <- He. f_equal. lia. }
    simpl in *. repeat split.
    + rewrite Hres. f_equal. lia.
    + unfold generations in *. simpl. f_equal. assumption.
    + unfold sleeps in *. simpl. f_equal. assumption.
Qed.

Lemma retryWithBackoff_exhausted_witness :
  (retryWithBackoff (post Scenarios.failing) 0 MAX_RETRIES).2
    = Throw "API error: 500".
Proof.
  apply (retryWithBackoff_exhausted (post Scenarios.failing) MAX_RETRIES 0).
  intros j _. exists "API error: 500". reflexivity.
Defined.

(** X3.  Whatever [fn] does, a call with the default [MAX_RETRIES] waits 1000,
    2000 and 3000 ms at most, in that order: 6 seconds in all at most. *)
Theorem retryWithBackoff_waits_at_most_six_seconds {T : Type}
    (fn : nat → completion T) (call : nat) :
  let waits := sleeps (retryWithBackoff fn call MAX_RETRIES).1 in
  waits `prefix_of` [1000; 2000; 3000] ∧
  0 ≤ foldr Z.add 0 waits ≤ 6000.
Proof.
  unfold MAX_RETRIES. simpl.
  destruct (fn call); simpl; [split; [by exists [1000; 2000; 3000]|lia]|].
  destruct (fn (S call)); simpl; [split; [by exists [2000; 3000]|lia]|].
  destruct (fn (S (S call))); simpl; [split; [by exists [3000]|lia]|].
  destruct (fn (S (S (S call)))); simpl; (split; [by exists []|lia]).
Qed.

End RetryExtras.

(** ** [generateVirtualTryOn] and [processJob] for any environment *)

Module JobExtras.
Import JS External ProductValidator RorkAIClient FeedLoadingService PoolRuns.

(** A product that passes validation has a string that starts with [http]
    as its first image URL. *)
Lemma validate_true_first_url (product : value) :
  validateProductForGeneration product = Return true →
  ∃ url, firstImageUrl product = Str url ∧ String.prefix "http" url = true.
Proof.
  intros Hv.
  destruct product as [| |b|n|s|items|fields]; try discriminate Hv.
  - destruct b; discriminate Hv.
  - unfold validateProductForGeneration in Hv. simpl in Hv.
    destruct (n =? 0); discriminate Hv.
  - unfold validateProductForGeneration in Hv. simpl in Hv.
    destruct (String.eqb s ""); discriminate Hv.
  - unfold firstImageUrl. simpl.
    destruct (assoc "image_urls" fields) as [| |b|n|s|items|fs] eqn:Hurls;
      try (unfold validateProductForGeneration in Hv; simpl in Hv;
           rewrite Hurls in Hv; discriminate Hv).
    destruct items as [|first rest].
    { unfold validateProductForGeneration in Hv; simpl in Hv.
      rewrite Hurls in Hv. discriminate Hv. }
    rewrite (ValidatorFacts.validate_Obj_first _ _ _ Hurls) in Hv.
    destruct (truthy first); [|discriminate Hv].
    destruct first as [| |b|n|s|xs|fs]; try discriminate Hv.
    simpl in Hv. destruct (String.prefix "http" s) eqn:Hprefix;
      [|discriminate Hv].
    exists s. split; [reflexivity|assumption].
Qed.

Lemma prefix_empty (s : string) : String.prefix "" s = true.
Proof. destruct s; reflexivity. Qed.

(** A value returned by [retryWithBackoff] is the value of one of the calls
    it was allowed to make. *)
Lemma retryWithBackoff_returns_a_call {T : Type} (fn : nat → completion T)
    (retries call : nat) (v : T) :
  (retryWithBackoff fn call retries).2 = Return v →
  ∃ k, (call ≤ k ≤ call + retries)%nat ∧ fn k = Return v.
Proof.
  revert call. induction retries as [|r IH]; intros call Hres; simpl in Hres.
  - destruct (fn call) eqn:Hfn; [|discriminate Hres].
    exists call. split; [lia|]. simpl in Hres. congruence.
  - destruct (fn call) eqn:Hfn.
    + exists call. split; [lia|]. simpl in Hres. congruence.
    + destruct (retryWithBackoff fn (S call) r) as [trace result] eqn:Hrec.
      simpl in Hres. subst result.
      destruct (IH (S call)) as (k & Hk & Hfn').
      { rewrite Hrec. reflexivity. }
      exists k. split; [lia|assumption].
Qed.

(** The trace of [retryWithBackoff] holds calls and waits only. *)
Lemma retryWithBackoff_no_substitution {T : Type} (fn : nat → completion T)
    (retries call : nat) :
  substitutions (retryWithBackoff fn call retries).1 = 0%nat.
Proof.
  revert call. induction retries as [|r IH]; intros call; simpl.
  - destruct (fn call); reflexivity.
  - destruct (fn call); [reflexivity|].
    specialize (IH (S call)).
    destruct (retryWithBackoff fn (S call) r). simpl in *. assumption.
Qed.

Lemma generateVirtualTryOn_no_substitution (env : environment)
    (product : value) :
  substitutions (generateVirtualTryOn env product).1 = 0%nat.
Proof.
  unfold generateVirtualTryOn.
  destruct (validateProductForGeneration product) as [[|]|]; try reflexivity.
  destruct (productImage env (firstImageUrl product)); [|reflexivity].
  pose proof (retryWithBackoff_no_substitution (post env) MAX_RETRIES 0) as H.
  destruct (retryWithBackoff (post env) 0 MAX_RETRIES). simpl in *.
  assumption.
Qed.

(** X4.  Real product images only: if [generateVirtualTryOn] calls the generation
    endpoint at all, the product has passed validation and the image at its
    first URL, which starts with [http], has been downloaded first. *)
Theorem generation_only_after_validation_and_download
    (env : environment) (product : value) :
  generations (generateVirtualTryOn env product).1 ≠ [] →
  validateProductForGeneration product = Return true ∧
  ∃ url image,
    firstImageUrl product = Str url ∧
    String.prefix "http" url = true ∧
    productImage env (Str url) = Return image ∧
    head (generateVirtualTryOn env product).1 = Some (FetchImage (Str url)).
Proof.
  unfold generateVirtualTryOn.
  destruct (validateProductForGeneration product) as [[|]|] eqn:Hvalid;
    try (intros Hgen; contradiction).
  destruct (validate_true_first_url _ Hvalid) as (url & Hurl & Hprefix).
  rewrite Hurl.
  destruct (productImage env (Str url)) as [image|error] eqn:Himage;
    [|intros Hgen; contradiction].
  intros _. split; [reflexivity|].
  exists url, image. repeat split; try assumption.
  destruct (retryWithBackoff (post env) 0 MAX_RETRIES). reflexivity.
Qed.

Lemma generation_only_after_validation_and_download_witness :
  validateProductForGeneration Scenarios.jeans = Return true.
Proof.
  apply (generation_only_after_validation_and_download Scenarios.failing
           Scenarios.jeans).
  vm_compute. discriminate.
Defined.

(** X5.  [generateVirtualTryOn] fails fast.  For a product that does not pass
    validation it throws without any call to the outside; when the product
    image cannot be downloaded it throws the download's error after that one
    download, without calling the generation endpoint. *)
Theorem generateVirtualTryOn_fails_fast (env : environment) (product : value) :
  (validateProductForGeneration product ≠ Return true →
     (generateVirtualTryOn env product).1 = [] ∧
     ∃ error, (generateVirtualTryOn env product).2 = Throw error) ∧
  (∀ error,
     validateProductForGeneration product = Return true →
     productImage env (firstImageUrl product) = Throw error →
     generateVirtualTryOn env product =
       ([FetchImage (firstImageUrl product)], Throw error)).
Proof.
  split.
  - intros Hinvalid. unfold generateVirtualTryOn.
    destruct (validateProductForGeneration product) as [[|]|error];
      [contradiction| |]; split; eauto.
  - intros error Hvalid Himage. unfold generateVirtualTryOn.
    rewrite Hvalid, Himage. reflexivity.
Qed.

Lemma generateVirtualTryOn_fails_fast_witness :
  (generateVirtualTryOn Scenarios.no_images Scenarios.imageless).1 = [].
Proof.
  apply (proj1 (generateVirtualTryOn_fails_fast Scenarios.no_images
                  Scenarios.imageless)).
  vm_compute. discriminate.
Defined.

(** X6.  What [generateVirtualTryOn] returns is the data URL built from the
    answer of one of the at most four calls of the endpoint: it starts with
    [data:]. *)
Theorem generateVirtualTryOn_returns_data_url
    (env : environment) (product : value) (image : string) :
  (generateVirtualTryOn env product).2 = Return image →
  String.prefix "data:" image = true ∧
  ∃ k mimeType base64Data,
    (k ≤ MAX_RETRIES)%nat ∧
    generation env k = Return (mimeType, base64Data) ∧
    image = "data:" +:+ mimeType +:+ ";base64," +:+ base64Data.
Proof.
  unfold generateVirtualTryOn.
  destruct (validateProductForGeneration product) as [[|]|];
    try discriminate.
  destruct (productImage env (firstImageUrl product)); [|discriminate].
  destruct (retryWithBackoff (post env) 0 MAX_RETRIES) as [trace result]
    eqn:Hretry.
  simpl. intros ->.
  destruct (retryWithBackoff_returns_a_call (post env) MAX_RETRIES 0 image)
    as (k & Hk & Hpost).
  { rewrite Hretry. reflexivity. }
  unfold post in Hpost.
  destruct (generation env k) as [[mimeType base64Data]|] eqn:Hgen;
    [|discriminate Hpost].
  injection Hpost as <-.
  split; [simpl; apply prefix_empty|].
  exists k, mimeType, base64Data. repeat split; [lia|assumption].
Qed.

Lemma generateVirtualTryOn_returns_data_url_witness :
  String.prefix "data:" "data:image/jpeg;base64,dHJ5b24=" = true.
Proof.
  apply (generateVirtualTryOn_returns_data_url Scenarios.third_time_lucky
           Scenarios.jeans "data:image/jpeg;base64,dHJ5b24=").
  reflexivity.
Defined.

(** What a successful [generateVirtualTryOn] tells about the product and
    the image. *)
Lemma generateVirtualTryOn_return_inv (env : environment) (product : value)
    (image : string) :
  (generateVirtualTryOn env product).2 = Return image →
  validateProductForGeneration product = Return true ∧
  String.prefix "data:" image = true.
Proof.
  unfold generateVirtualTryOn.
  destruct (validateProductForGeneration product) as [[|]|];
    try discriminate.
  destruct (productImage env (firstImageUrl product)); [|discriminate].
  destruct (retryWithBackoff (post env) 0 MAX_RETRIES) as [trace result]
    eqn:Hretry.
  simpl. intros ->. split; [reflexivity|].
  destruct (retryWithBackoff_returns_a_call (post env) MAX_RETRIES 0 image)
    as (k & _ & Hpost).
  { rewrite Hretry. reflexivity. }
  unfold post in Hpost.
  destruct (generation env k) as [[mimeType base64Data]|];
    [|discriminate Hpost].
  injection Hpost as <-. simpl. apply prefix_empty.
Qed.

Lemma substitutions_snoc (trace : list event) :
  substitutions (trace ++ [FetchDifferentProduct]) = S (substitutions trace).
Proof.
  unfold substitutions. rewrite List.filter_app, length_app. simpl. lia.
Qed.

(** The two ways a job ends. *)
Lemma processJob_cases (env : environment) (job : Job) (cache : gmap Z value) :
  (∃ product image,
     catalog env = Return product ∧
     (generateVirtualTryOn env product).2 = Return image ∧
     processJob env job cache =
       (FetchProduct :: (generateVirtualTryOn env product).1,
        <[position job := cacheEntry job image product]> cache,
        Return ()))
  ∨
  (∃ trace,
     processJob env job cache =
       (trace ++ [FetchDifferentProduct], cache,
        match otherProduct env with
        | Return _ => Return ()
        | Throw error => Throw error
        end) ∧
     substitutions trace = 0%nat).
Proof.
  unfold processJob. destruct (catalog env) as [product|error] eqn:Hcatalog.
  - pose proof (generateVirtualTryOn_no_substitution env product) as Hnone.
    destruct (generateVirtualTryOn env product) as [trace [image|error]]
      eqn:Hrun.
    + left. exists product, image. rewrite Hrun.
      split; [reflexivity|]. split; reflexivity.
    + right. exists (FetchProduct :: trace).
      split; [destruct (otherProduct env); reflexivity|].
      simpl in *. assumption.
  - right. exists [FetchProduct].
    split; [destruct (otherProduct env); reflexivity|reflexivity].
Qed.

(** X7.  A job writes at most its own position of the cache, and only when the
    generation has succeeded, in which case it asks for no other product.
    In every other case the cache is left as it was and the job asks for a
    different product exactly once, as its last call; its promise is rejected
    only when that call fails. *)
Theorem processJob_caches_or_substitutes
    (env : environment) (job : Job) (cache : gmap Z value) :
  let run := processJob env job cache in
  (∀ p, p ≠ position job → run.1.2 !! p = cache !! p) ∧
  ((∃ product image,
      catalog env = Return product ∧
      (generateVirtualTryOn env product).2 = Return image ∧
      run.1.2 !! position job = Some (cacheEntry job image product) ∧
      substitutions run.1.1 = 0%nat ∧ run.2 = Return ())
   ∨
   (run.1.2 = cache ∧
    substitutions run.1.1 = 1%nat ∧
    last run.1.1 = Some FetchDifferentProduct ∧
    run.2 = match otherProduct env with
            | Return _ => Return ()
            | Throw error => Throw error
            end)).
Proof.
  simpl.
  destruct (processJob_cases env job cache)
    as [(product & image & Hcatalog & Himage & ->)|(trace & -> & Hnone)];
    simpl.
  - split.
    + intros p Hp. apply lookup_insert_ne. congruence.
    + left. exists product, image. repeat split; try assumption.
      * apply lookup_insert_eq.
      * apply (generateVirtualTryOn_no_substitution env product).
  - split; [reflexivity|]. right. repeat split.
    + rewrite substitutions_snoc, Hnone. reflexivity.
    + apply last_snoc.
Qed.

Lemma processJob_caches_or_substitutes_witness :
  (processJob Scenarios.third_time_lucky (Scenarios.job 7) ∅).1.2 !! 8
    = (∅ : gmap Z value) !! 8.
Proof.
  apply (proj1 (processJob_caches_or_substitutes Scenarios.third_time_lucky
                  (Scenarios.job 7) ∅) 8).
  discriminate.
Defined.

End JobExtras.

(** ** The worker pool over whole runs *)

Module PoolExtras.
Import JS External ProductValidator RorkAIClient FeedLoadingService PoolRuns.

(** X8.  A second [processQueue] right after the first starts nothing; and after
    a [processQueue] no worker is idle while a job waits: the queue is empty
    or all [MAX_WORKERS] workers are busy. *)
Theorem processQueue_saturates (s : Service) :
  processQueue (processQueue s) = processQueue s ∧
  (activeWorkers s ≤ MAX_WORKERS →
     jobQueue (processQueue s) = [] ∨
     activeWorkers (processQueue s) = MAX_WORKERS).
Proof.
  assert (Hnone : batch (activeWorkers (processQueue s))
                    (jobQueue (processQueue s)) = 0%nat).
  { rewrite PoolFacts.processQueue_eq. simpl.
    unfold batch. rewrite length_drop. unfold batch, MAX_WORKERS. lia. }
  split.
  - rewrite (PoolFacts.processQueue_eq (processQueue s)).
    rewrite PoolFacts.dequeued_eq, Hnone. simpl.
    rewrite Z.add_0_r, app_nil_r.
    destruct (processQueue s). reflexivity.
  - intros Hbound. rewrite PoolFacts.processQueue_eq. simpl.
    destruct (decide (length (jobQueue s)
                        ≤ batch (activeWorkers s) (jobQueue s))%nat)
      as [Hall|Hsome].
    + left. apply drop_ge. assumption.
    + right. unfold batch, MAX_WORKERS in *. lia.
Qed.

Lemma processQueue_saturates_witness :
  jobQueue (processQueue Scenarios.saturated) = [] ∨
  activeWorkers (processQueue Scenarios.saturated) = MAX_WORKERS.
Proof.
  apply (proj2 (processQueue_saturates Scenarios.saturated)).
  vm_compute. discriminate.
Defined.

Lemma perform_settle_queue (s : Service) (a : action) :
  isSettle a = true →
  jobQueue (perform s a) = jobQueue s ∧
  activeWorkers (perform s a) ≤ activeWorkers s.
Proof.
  destruct a as [jobs| |i env]; try discriminate. intros _. simpl.
  unfold settle. destruct (inFlight s !! i); simpl; split; (reflexivity || lia).
Qed.

Lemma run_settles_queue (settles : list action) (s : Service) :
  forallb isSettle settles = true →
  jobQueue (run settles s) = jobQueue s ∧
  activeWorkers (run settles s) ≤ activeWorkers s.
Proof.
  revert s. induction settles as [|a settles IH]; intros s Hall; simpl.
  - split; [reflexivity|lia].
  - simpl in Hall. apply andb_true_iff in Hall as [Ha Hall].
    destruct (perform_settle_queue s a Ha) as [Hqueue Hactive].
    destruct (IH (perform s a) Hall) as [Hqueue' Hactive'].
    unfold run in *. split; [congruence|lia].
Qed.

(** X9.  The pool is not refilled when jobs finish: settling a job starts no
    queued job.  Of the jobs pushed on a fresh service and processed once,
    the first 30 are started and the others stay queued, in order, however
    many of the started jobs settle, until [processQueue] is called again. *)
Theorem queued_jobs_wait_for_next_processQueue
    (jobs : list Job) (settles : list action) :
  forallb isSettle settles = true →
  let s := run (Push jobs :: Process :: settles) initial in
  jobQueue s = drop 30 jobs ∧
  activeWorkers s ≤ Z.of_nat (Nat.min 30 (length jobs)).
Proof.
  intros Hall. cbv zeta.
  destruct (run_settles_queue settles
              (processQueue (enqueue jobs initial)) Hall) as [Hqueue Hactive].
  unfold run in *. cbn [foldl perform] in *. rewrite Hqueue.
  rewrite PoolFacts.processQueue_eq in Hactive |- *.
  cbn [activeWorkers jobQueue enqueue initial app] in *.
  assert (Hbatch : batch 0 jobs = Nat.min 30 (length jobs)).
  { unfold batch, MAX_WORKERS. lia. }
  rewrite Hbatch in *. split; [|lia].
  destruct (decide (30 ≤ length jobs)%nat).
  - rewrite Nat.min_l by assumption. reflexivity.
  - rewrite Nat.min_r by lia. rewrite !drop_ge by lia. reflexivity.
Qed.

Lemma queued_jobs_wait_for_next_processQueue_witness :
  jobQueue (run [Push (Scenarios.jobs 0 50); Process;
                 Settle 0 Scenarios.failing; Settle 0 Scenarios.failing]
              initial)
    = drop 30 (Scenarios.jobs 0 50).
Proof.
  apply (queued_jobs_wait_for_next_processQueue (Scenarios.jobs 0 50)
           [Settle 0 Scenarios.failing; Settle 0 Scenarios.failing]).
  reflexivity.
Defined.

(** In numbers: after any run of pushes, [processQueue] calls and
    completions on a fresh service, the jobs that are queued, in flight or
    settled are as many as were pushed, and [activeWorkers] counts those in
    flight. *)
Theorem jobs_are_conserved (actions : list action) :
  let s := run actions initial in
  (length (jobQueue s) + length (inFlight s) + settled actions initial
     = pushed actions)%nat ∧
  activeWorkers s = Z.of_nat (length (inFlight s)).
Proof.
  assert (Hgen : ∀ actions s,
            (length (jobQueue (run actions s))
               + length (inFlight (run actions s)) + settled actions s
             = length (jobQueue s) + length (inFlight s) + pushed actions)%nat
            ∧ activeWorkers (run actions s)
                - Z.of_nat (length (inFlight (run actions s)))
              = activeWorkers s - Z.of_nat (length (inFlight s))).
  { clear actions. induction actions as [|a actions IH]; intros s.
    - simpl. split; lia.
    - destruct (IH (perform s a)) as [Hcount Hactive].
      change (run (a :: actions) s) with (run actions (perform s a)).
      simpl settled. rewrite Hactive.
      destruct a as [jobs| |i env]; simpl in *.
      + rewrite length_app in Hcount. split; lia.
      + rewrite PoolFacts.processQueue_eq in Hcount |- *. simpl in *.
        rewrite PoolFacts.dequeued_eq in Hcount |- *.
        rewrite length_app, length_take, length_drop in Hcount.
        rewrite length_app, length_take.
        unfold batch in *. split; lia.
      + unfold settle in Hcount |- *.
        destruct (inFlight s !! i) as [job|] eqn:Hjob; simpl in *.
        * apply lookup_lt_Some in Hjob as Hlt.
          rewrite length_delete in Hcount |- * by eauto.
          split; lia.
        * split; lia. }
  simpl. destruct (Hgen actions initial) as [Hcount Hactive].
  simpl in *. split; lia.
Qed.

Lemma run_cons (a : action) (actions : list action) (s : Service) :
  run (a :: actions) s = run actions (perform s a).
Proof. reflexivity. Qed.

(** The jobs themselves, from any state: those settled, in flight and queued
    after a run are those in flight and queued before it and those pushed by
    it, each as many times. *)
Lemma run_keeps_jobs (actions : list action) (s : Service) :
  settledJobs actions s ++ inFlight (run actions s) ++ jobQueue (run actions s)
    ≡ₚ inFlight s ++ jobQueue s ++ pushedJobs actions.
Proof.
  revert s. induction actions as [|a actions IH]; intros s.
  - simpl. rewrite app_nil_r. reflexivity.
  - rewrite run_cons. specialize (IH (perform s a)).
    destruct a as [jobs| |i env]; simpl settledJobs; simpl pushedJobs;
      simpl perform in *.
    + simpl in *. rewrite IH, <- !app_assoc. reflexivity.
    + simpl. rewrite IH, PoolFacts.processQueue_eq, PoolFacts.dequeued_eq.
      simpl. rewrite <- (app_assoc (inFlight s)), (app_assoc (take _ _)).
      rewrite take_drop. reflexivity.
    + unfold settle in IH |- *.
      destruct (inFlight s !! i) as [job|] eqn:Hjob; simpl in *.
      * rewrite IH. rewrite (delete_Permutation (inFlight s) i job Hjob) at 2.
        reflexivity.
      * exact IH.
Qed.

(** X10.  No job is lost and none is started twice: after any run of pushes,
    [processQueue] calls and completions on a fresh service, the jobs that
    have settled, are in flight or are queued are exactly the jobs that were
    pushed, each as many times as it was pushed; and [activeWorkers] is the
    number of jobs in flight. *)
Theorem no_job_is_lost_or_started_twice (actions : list action) :
  let s := run actions initial in
  settledJobs actions initial ++ inFlight s ++ jobQueue s
    ≡ₚ pushedJobs actions ∧
  activeWorkers s = Z.of_nat (length (inFlight s)).
Proof.
  simpl. split.
  - rewrite run_keeps_jobs. reflexivity.
  - apply (jobs_are_conserved actions).
Qed.

End PoolExtras.

(** ** What the cache holds, and how the feed shows it *)

Module CacheExtras.
Import JS External ProductValidator RorkAIClient FeedLoadingService PoolRuns.
Import FeedScreen.

Lemma step_well_cached (s s' : Service) :
  step s s' → well_cached s → well_cached s'.
Proof.
  intros Hstep Hcached. destruct Hstep as [jobs s|s|i env s Hi].
  - exact Hcached.
  - rewrite PoolFacts.processQueue_eq. exact Hcached.
  - unfold settle. destruct Hi as [job Hjob]. rewrite Hjob.
    intros p entry. simpl.
    destruct (JobExtras.processJob_cases env job (imageCache s))
      as [(product & image & _ & Himage & ->)|(trace & -> & _)]; simpl.
    + destruct (decide (position job = p)) as [<-|Hne].
      * rewrite lookup_insert_eq. intros [= <-].
        destruct (JobExtras.generateVirtualTryOn_return_inv _ _ _ Himage)
          as [Hvalid Hprefix].
        exists job, image, product. repeat split; assumption.
      * rewrite lookup_insert_ne by assumption. apply Hcached.
    + apply Hcached.
Qed.

Lemma reachable_well_cached (s : Service) : reachable s → well_cached s.
Proof.
  unfold reachable. revert s. apply (rtc_ind_r well_cached).
  - intros p entry Hentry. simpl in Hentry.
    rewrite lookup_empty in Hentry. discriminate Hentry.
  - intros s s' _ Hstep IH. eapply step_well_cached; eassumption.
Qed.

(** X11.  Whatever the catalog, the image host and the generation endpoint answer,
    every entry the cache ever holds was written by [processJob] for the
    position it is stored at: its [position] field is its key, its product
    has passed validation and its image is a data URL. *)
Theorem cache_holds_validated_products (s : Service) (p : Z) (entry : value) :
  reachable s →
  imageCache s !! p = Some entry →
  get entry "position" = Return (Num p) ∧
  (∃ image, get entry "imageUrl" = Return (Str image) ∧
            String.prefix "data:" image = true) ∧
  (∃ product, get entry "product" = Return product ∧
              validateProductForGeneration product = Return true).
Proof.
  intros Hreach Hentry.
  destruct (reachable_well_cached s Hreach p entry Hentry)
    as (job & image & product & -> & <- & Hvalid & Hprefix).
  repeat split; eauto.
Qed.

Lemma third_time_lucky_reachable :
  reachable (settle 0 Scenarios.third_time_lucky
               (processQueue (enqueue [Scenarios.job 7] initial))).
Proof.
  unfold reachable.
  eapply rtc_l; [apply (step_enqueue [Scenarios.job 7])|].
  eapply rtc_l; [apply step_processQueue|].
  apply rtc_once, step_settle. vm_compute. eauto.
Qed.

Lemma cache_holds_validated_products_witness :
  get (cacheEntry (Scenarios.job 7) "data:image/jpeg;base64,dHJ5b24="
         Scenarios.jeans) "position" = Return (Num 7).
Proof.
  apply (cache_holds_validated_products _ 7 _ third_time_lucky_reachable).
  vm_compute. reflexivity.
Defined.

Lemma validate_true_truthy (product : value) :
  validateProductForGeneration product = Return true →
  truthy product = true.
Proof.
  unfold validateProductForGeneration.
  destruct (truthy product); [reflexivity|discriminate].
Qed.

Lemma prefix_data_nonempty (image : string) :
  String.prefix "data:" image = true → truthy (Str image) = true.
Proof. destruct image; [discriminate|reflexivity]. Qed.

(** X12.  Every cached entry is shown by [renderFeedItem] as a picture with its
    product's name and brand: never as the spinner, an error or nothing. *)
Theorem cached_entries_render_as_pictures
    (s : Service) (p : Z) (entry : value) :
  reachable s →
  imageCache s !! p = Some entry →
  ∃ image product price,
    renderFeedItem entry =
      Return (Picture (Str image)
                (Shown {| productName := prop product "name";
                          productBrand := prop product "brand_name";
                          productPrice := price |})) ∧
    get entry "product" = Return product.
Proof.
  intros Hreach Hentry.
  destruct (reachable_well_cached s Hreach p entry Hentry)
    as (job & image & product & -> & _ & Hvalid & Hprefix).
  apply validate_true_truthy in Hvalid.
  apply prefix_data_nonempty in Hprefix.
  exists image, product,
    (and_then (prop product "base_price") (prop product "base_price")).
  split; [|reflexivity].
  unfold renderFeedItem, cacheEntry, prop, and_then at 1. simpl in *.
  rewrite Hprefix, Hvalid. reflexivity.
Qed.

Lemma cached_entries_render_as_pictures_witness :
  ∃ image product price,
    renderFeedItem
      (cacheEntry (Scenarios.job 7) "data:image/jpeg;base64,dHJ5b24="
         Scenarios.jeans) =
      Return (Picture (Str image)
                (Shown {| productName := prop product "name";
                          productBrand := prop product "brand_name";
                          productPrice := price |})) ∧
    get (cacheEntry (Scenarios.job 7) "data:image/jpeg;base64,dHJ5b24="
           Scenarios.jeans) "product" = Return product.
Proof.
  apply (cached_entries_render_as_pictures _ 7 _ third_time_lucky_reachable).
  vm_compute. reflexivity.
Defined.

(** X13.  The preload effect prefetches exactly the truthy [imageUrl]s of
    the feed items at the five positions after [currentIndex]: a URL is
    prefetched if and only if it is truthy and is the [imageUrl] of an
    existing item at one of the positions [currentIndex + 1] to
    [currentIndex + 5].  So it prefetches at most five images, and nothing at
    the end of the feed. *)
Theorem preload_next_five (currentIndex : nat) (feed : list value) :
  (length (preload currentIndex feed) ≤ 5)%nat ∧
  (∀ url, url ∈ preload currentIndex feed ↔
     truthy url = true ∧
     ∃ pos item,
       (currentIndex < pos ≤ currentIndex + 5)%nat ∧
       feed !! pos = Some item ∧ item ≠ Null ∧ item ≠ Undefined ∧
       get item "imageUrl" = Return url) ∧
  ((length feed ≤ currentIndex + 1)%nat → preload currentIndex feed = []).
Proof.
  unfold preload. split; [|split].
  - simpl. repeat (destruct (truthy _)); simpl; lia.
  - intros url. rewrite list_elem_of_omap. split.
    + intros (pos & Hpos & Hsome).
      destruct (truthy (imageUrlOf (feed !! pos))) eqn:Htruthy;
        [|discriminate Hsome].
      injection Hsome as <-. split; [assumption|].
      unfold imageUrlOf in *.
      destruct (feed !! pos) as [item|] eqn:Hitem; [|discriminate Htruthy].
      exists pos, item.
      split.
      { repeat (apply elem_of_cons in Hpos as [->|Hpos]; [lia|]).
        inversion Hpos. }
      split; [exact Hitem|].
      destruct item; try discriminate Htruthy;
        (split; [discriminate|split; [discriminate|reflexivity]]).
    + intros (Htruthy & pos & item & Hrange & Hitem & Hnull & Hundef & Hget).
      exists pos. split.
      { assert (Hcases : pos = (currentIndex + 1)%nat
                         ∨ pos = (currentIndex + 2)%nat
                         ∨ pos = (currentIndex + 3)%nat
                         ∨ pos = (currentIndex + 4)%nat
                         ∨ pos = (currentIndex + 5)%nat) by lia.
        repeat rewrite elem_of_cons. tauto. }
      rewrite Hitem.
      assert (Hurl : imageUrlOf (Some item) = url).
      { unfold imageUrlOf, prop.
        destruct item; try contradiction; rewrite Hget; reflexivity. }
      rewrite Hurl, Htruthy. reflexivity.
  - intros Hend.
    assert (Hnone : ∀ pos, (currentIndex < pos)%nat →
              (if truthy (imageUrlOf (feed !! pos))
               then Some (imageUrlOf (feed !! pos)) else None) = None).
    { intros pos Hpos. rewrite (lookup_ge_None_2 feed pos) by lia.
      reflexivity. }
    simpl. rewrite !Hnone by lia. reflexivity.
Qed.

(** From the first of three items, of which the second is still loading,
    the picture of the third is prefetched. *)
Lemma preload_next_five_witness :
  Str "data:image/jpeg;base64,BBBB" ∈ preload 0 Scenarios.short_feed.
Proof.
  apply (proj2 (proj1 (proj2 (preload_next_five 0 Scenarios.short_feed)) _)).
  split; [reflexivity|].
  exists 2%nat, (cacheEntry (Scenarios.job 2) "data:image/jpeg;base64,BBBB"
                   Scenarios.jeans).
  split; [lia|]. split; [reflexivity|].
  split; [discriminate|]. split; [discriminate|reflexivity].
Defined.

(** A price of 0 cents is not shown as a price: the guard leaves the number
    0 itself as the child. *)
Lemma renderFeedItem_price_zero :
  renderFeedItem
    (Obj [("imageUrl", Str "data:,");
          ("product", Obj [("name", Str "Gift"); ("brand_name", Str "Nike");
                           ("base_price", Num 0)])])
  = Return (Picture (Str "data:,")
              (Shown {| productName := Str "Gift";
                        productBrand := Str "Nike";
                        productPrice := Leftover (Num 0) |})).
Proof. reflexivity. Qed.

End CacheExtras.

(** ** The validators *)

Module ValidatorExtras.
Import JS ProductValidator.

(** X14.  [validateProductForGeneration] never throws on [null], [undefined] or a
    product without a usable [image_urls]: it throws (a TypeError, from
    [startsWith]) exactly when [image_urls] is an array whose first element
    is truthy and not a string. *)
Theorem validate_throws_iff_first_not_a_string
    (product : value) (error : string) :
  validateProductForGeneration product = Throw error ↔
  error = "TypeError" ∧
  ∃ fields first rest,
    product = Obj fields ∧
    assoc "image_urls" fields = Arr (first :: rest) ∧
    truthy first = true ∧ (∀ s, first ≠ Str s).
Proof.
  split.
  - intros Hv.
    destruct product as [| |b|n|s|items|fields]; try discriminate Hv.
    + destruct b; discriminate Hv.
    + unfold validateProductForGeneration in Hv. simpl in Hv.
      destruct (n =? 0); discriminate Hv.
    + unfold validateProductForGeneration in Hv. simpl in Hv.
      destruct (String.eqb s ""); discriminate Hv.
    + destruct (assoc "image_urls" fields) as [| |b|n|s|items|fs] eqn:Hurls;
        try (unfold validateProductForGeneration in Hv; simpl in Hv;
             rewrite Hurls in Hv; discriminate Hv).
      destruct items as [|first rest].
      { unfold validateProductForGeneration in Hv; simpl in Hv.
        rewrite Hurls in Hv. discriminate Hv. }
      rewrite (ValidatorFacts.validate_Obj_first _ _ _ Hurls) in Hv.
      destruct (truthy first) eqn:Htruthy; [|discriminate Hv].
      simpl in Hv.
      destruct first as [| |b|n|s|xs|fs]; simpl in Hv;
        try (injection Hv as <-; split; [reflexivity|];
             exists fields; eexists; exists rest;
             repeat split; try eassumption; discriminate).
      destruct (String.prefix "http" s); discriminate Hv.
  - intros (-> & fields & first & rest & -> & Hurls & Htruthy & Hnot).
    rewrite (ValidatorFacts.validate_Obj_first _ _ _ Hurls), Htruthy.
    simpl. destruct first; try reflexivity. exfalso. eapply Hnot. reflexivity.
Qed.

Lemma validate_throws_iff_first_not_a_string_witness :
  validateProductForGeneration (Obj [("image_urls", Arr [Num 5])])
    = Throw "TypeError".
Proof.
  apply (proj2 (validate_throws_iff_first_not_a_string _ _)).
  split; [reflexivity|].
  exists [("image_urls", Arr [Num 5])], (Num 5), [].
  repeat split. discriminate.
Defined.

(** X15.  The scraper's [validate_product] and the app's
    [validateProductForGeneration] agree: whenever the scraper's validator
    returns, the app's returns the same answer, and every product the app
    accepts is accepted by the scraper. *)
Theorem scraper_and_app_validators_agree (product : value) :
  (∀ answer,
     Scraper.validate_product product = Return answer →
     validateProductForGeneration product = Return answer) ∧
  (validateProductForGeneration product = Return true →
   Scraper.validate_product product = Return true).
Proof.
  split.
  - intros answer Hpy.
    destruct product as [| |b|n|s|items|fields]; try discriminate Hpy.
    unfold Scraper.validate_product in Hpy. simpl in Hpy.
    destruct (assoc "image_urls" fields) as [| |b|n|s|items|fs] eqn:Hurls;
      simpl in Hpy;
      try (unfold validateProductForGeneration; simpl; rewrite Hurls; simpl;
           repeat match type of Hpy with
                  | context [if ?c then _ else _] => destruct c
                  end; congruence).
    destruct items as [|first rest]; simpl in Hpy.
    { unfold validateProductForGeneration. simpl. rewrite Hurls. simpl.
      congruence. }
    rewrite (ValidatorFacts.validate_Obj_first _ _ _ Hurls).
    destruct first as [| |b|n|s|xs|fs]; try discriminate Hpy.
    simpl in Hpy |- *.
    destruct (String.eqb s "") eqn:Hempty; simpl.
    + apply String.eqb_eq in Hempty. subst s. simpl in Hpy. assumption.
    + assumption.
  - intros Hv.
    destruct product as [| |b|n|s|items|fields]; try discriminate Hv.
    + destruct b; discriminate Hv.
    + unfold validateProductForGeneration in Hv. simpl in Hv.
      destruct (n =? 0); discriminate Hv.
    + unfold validateProductForGeneration in Hv. simpl in Hv.
      destruct (String.eqb s ""); discriminate Hv.
    + destruct (assoc "image_urls" fields) as [| |b|n|s|items|fs] eqn:Hurls;
        try (unfold validateProductForGeneration in Hv; simpl in Hv;
             rewrite Hurls in Hv; discriminate Hv).
      destruct items as [|first rest].
      { unfold validateProductForGeneration in Hv; simpl in Hv.
        rewrite Hurls in Hv. discriminate Hv. }
      rewrite (ValidatorFacts.validate_Obj_first _ _ _ Hurls) in Hv.
      destruct (truthy first); [|discriminate Hv].
      destruct first as [| |b|n|s|xs|fs]; try discriminate Hv.
      unfold Scraper.validate_product. simpl. rewrite Hurls. simpl.
      simpl in Hv. assumption.
Qed.

Lemma scraper_and_app_validators_agree_witness :
  validateProductForGeneration Scenarios.imageless = Return false ∧
  Scraper.validate_product Scenarios.jeans = Return true.
Proof.
  split.
  - apply (proj1 (scraper_and_app_validators_agree Scenarios.imageless)).
    reflexivity.
  - apply (proj2 (scraper_and_app_validators_agree Scenarios.jeans)).
    reflexivity.
Defined.

End ValidatorExtras.

(** ** [generateWithFallback] *)

Module FallbackExtras.
Import JS ProductValidator Fallback.

(** X16.  Never a generation without a valid product: every product
    [generateWithFallback] hands to [rorkClient.generate] has passed
    validation.  It generates at most twice and fetches a different product
    at most once, and when the first product is valid and its generation
    succeeds it does neither a second time. *)
Theorem generateWithFallback_only_valid_products
    (env : environment) (product : value) :
  let run := generateWithFallback env product in
  (∀ p, p ∈ generated run.1 →
        validateProductForGeneration p = Return true) ∧
  (length (generated run.1) ≤ 2)%nat ∧
  (fetched run.1 ≤ 1)%nat ∧
  (∀ image,
     validateProductForGeneration product = Return true →
     generate env 0 product = Return image →
     run = ([Generate product], Return image)).
Proof.
  unfold generateWithFallback, fetched.
  destruct (validateProductForGeneration product) as [[|]|error] eqn:Hvalid;
    [destruct (generate env 0 product) as [image|error] eqn:Hgen| |];
    try (destruct (different env) as [nextProduct|error'];
         [destruct (validateProductForGeneration nextProduct) as [[|]|error'']
            eqn:Hnext|]);
    simpl; repeat split; try lia; try discriminate;
    try solve [intros p Hp;
               repeat (apply elem_of_cons in Hp as [->|Hp]; [assumption|]);
               inversion Hp].
  all: intros image' _ [= <-]; reflexivity.
Qed.

Lemma generateWithFallback_only_valid_products_witness :
  generateWithFallback
    {| generate := λ _ _, Return "data:image/jpeg;base64,dHJ5b24=";
       different := Return Scenarios.jeans |}
    Scenarios.jeans
  = ([Generate Scenarios.jeans], Return "data:image/jpeg;base64,dHJ5b24=").
Proof.
  apply (generateWithFallback_only_valid_products
           {| generate := λ _ _, Return "data:image/jpeg;base64,dHJ5b24=";
              different := Return Scenarios.jeans |} Scenarios.jeans);
    reflexivity.
Defined.

(** With no valid product at hand, nothing is generated: when neither the
    product nor the different product passes validation, the endpoint is not
    called and the call fails with an error. *)
Theorem generateWithFallback_without_valid_product
    (env : environment) (product nextProduct : value) :
  validateProductForGeneration product = Return false →
  different env = Return nextProduct →
  validateProductForGeneration nextProduct = Return false →
  generateWithFallback env product =
    ([FetchDifferentProduct], Throw "No valid products available").
Proof.
  intros Hfirst Hdifferent Hnext. unfold generateWithFallback.
  rewrite Hfirst, Hdifferent, Hnext. reflexivity.
Qed.

Lemma generateWithFallback_without_valid_product_witness :
  generateWithFallback
    {| generate := λ _ _, Return "data:image/jpeg;base64,dHJ5b24=";
       different := Return Scenarios.imageless |}
    Scenarios.imageless
  = ([FetchDifferentProduct], Throw "No valid products available").
Proof.
  apply (generateWithFallback_without_valid_product _ _ Scenarios.imageless);
    reflexivity.
Defined.

End FallbackExtras.

(** ** Data URLs *)

Module DataUrlExtras.
Import JS DataUrl.

Lemma split_nonempty (sep : Ascii.ascii) (s : string) : split sep s ≠ [].
Proof.
  destruct s as [|c rest]; simpl; [discriminate|].
  destruct (Ascii.eqb c sep); [discriminate|].
  destruct (split sep rest); discriminate.
Qed.

Lemma split_none (sep : Ascii.ascii) (s : string) :
  includes sep s = false → split sep s = [s].
Proof.
  induction s as [|c rest IH]; simpl; [reflexivity|].
  intros Hnone. apply orb_false_iff in Hnone as [Hc Hrest].
  rewrite Hc, (IH Hrest). reflexivity.
Qed.

Lemma split_first (sep : Ascii.ascii) (head tail : string) :
  includes sep head = false →
  split sep (head +:+ String sep tail) = head :: split sep tail.
Proof.
  induction head as [|c rest IH]; simpl.
  - intros _. rewrite Ascii.eqb_refl. reflexivity.
  - intros Hnone. apply orb_false_iff in Hnone as [Hc Hrest].
    rewrite Hc, (IH Hrest). reflexivity.
Qed.

(** X17.  [blobToBase64] (and [convertToBase64]) gives back the payload of a data
    URL: for a header and a payload without commas, the value resolved for
    [header,payload] is the payload.  A result without a comma resolves with
    [undefined], and a payload that holds a comma is cut at it. *)
Theorem blobToBase64_returns_payload (header payload : string) :
  includes comma header = false →
  (includes comma payload = false →
     blobToBase64 (header +:+ String comma payload) = Str payload) ∧
  (∀ more, includes comma payload = false →
     blobToBase64 (header +:+ String comma (payload +:+ String comma more))
       = Str payload) ∧
  blobToBase64 header = Undefined.
Proof.
  intros Hheader. unfold blobToBase64. repeat split.
  - intros Hpayload.
    rewrite (split_first _ _ _ Hheader), (split_none _ _ Hpayload).
    reflexivity.
  - intros more Hpayload.
    rewrite (split_first _ _ _ Hheader), (split_first _ _ _ Hpayload).
    reflexivity.
  - rewrite (split_none _ _ Hheader). reflexivity.
Qed.

Lemma blobToBase64_returns_payload_witness :
  blobToBase64 "data:image/jpeg;base64,cHJvZHVjdA==" = Str "cHJvZHVjdA==".
Proof.
  apply (proj1 (blobToBase64_returns_payload "data:image/jpeg;base64"
                  "cHJvZHVjdA==" eq_refl)).
  reflexivity.
Defined.

End DataUrlExtras.

(** ** The [products] table *)

Module SchemaExtras.
Import JS ProductValidator CatalogSchema.

(** X18.  [check_has_images] rejects no row: for an empty [image_urls] the
    expression is NULL, which satisfies a CHECK constraint, and for any other
    it is true.  So a row of the table may hold a product without images,
    which [validateProductForGeneration] rejects. *)
Theorem check_has_images_accepts_empty_array (image_urls : list string) :
  satisfied (check_has_images image_urls) = true ∧
  (image_urls = [] →
     check_has_images image_urls = None ∧
     ∀ fields,
       assoc "image_urls" fields = Arr (Str <$> image_urls) →
       validateProductForGeneration (Obj fields) = Return false).
Proof.
  split.
  - destruct image_urls as [|url urls]; [reflexivity|].
    unfold check_has_images, array_length, gt, satisfied.
    destruct (0 <? Z.of_nat (length (url :: urls))) eqn:Hpos;
      [reflexivity|].
    apply Z.ltb_ge in Hpos. simpl in Hpos. lia.
  - intros ->. split; [reflexivity|].
    intros fields Hurls. unfold validateProductForGeneration. simpl.
    rewrite Hurls. reflexivity.
Qed.

Lemma check_has_images_accepts_empty_array_witness :
  check_has_images [] = None ∧
  ∀ fields,
    assoc "image_urls" fields = Arr (Str <$> []) →
    validateProductForGeneration (Obj fields) = Return false.
Proof.
  apply (proj2 (check_has_images_accepts_empty_array []) eq_refl).
Defined.

End SchemaExtras.
